(** * PDF Toolkit backend: page assembly, page-range selection and extraction

    A shallow embedding of [main.py] (the FastAPI handlers of the PDF toolkit
    and their helper [_parse_pages]) together with the properties of its
    page-range grammar, its page assembly (merge, split, rotate, compress) and
    its image pipelines.

    Conventions of the embedding.
    - Python [int] is [Z]; [str] is [string], read as a sequence of ASCII
      characters; [bytes] is [list byte].
    - A Python computation that may raise is a value of [result]: [Ok v] when
      it returns [v], [Raise e] when exception [e] escapes it.
    - A Python [set] of integers is a [gset Z]; [sorted] is a merge sort of
      its elements.
    - The PDF, image and zip libraries are modelled by what the handlers
      observe of them: the outcome of decoding an upload is a field of the
      upload, a page carries its [/Rotate] entry and the outcomes of
      enumerating its images. *)

From Stdlib Require Import Ascii String.
From Stdlib.Strings Require Import Byte.
From stdpp Require Import gmap strings list sorting pretty.

Local Open Scope string_scope.
Local Open Scope Z_scope.

(** ** Exceptions and results *)

Inductive exn : Type :=
  | HTTPException (status_code : Z) (detail : string)
  | ValueError
  | AttributeError
  | IndexError
  | LibraryError (msg : string).

Inductive result (A : Type) : Type :=
  | Ok (a : A)
  | Raise (e : exn).
Arguments Ok {A} a.
Arguments Raise {A} e.

#[global] Instance result_ret : MRet result := λ A a, Ok a.

#[global] Instance result_bind : MBind result := λ A B k m,
  match m with
  | Ok a => k a
  | Raise e => Raise e
  end.

(** [for x in xs: st = body(st, x)], leaving at the first exception. *)
Fixpoint for_each {A S} (body : S → A → result S) (st : S) (xs : list A)
  : result S :=
  match xs with
  | [] => Ok st
  | x :: xs' => st' ← body st x ; for_each body st' xs'
  end.

(** ** Python strings *)

Module Str.

(** [str.isspace] on one ASCII character: TAB, LF, VT, FF, CR, the four
    separators FS, GS, RS, US, and the space. *)
Definition is_space (c : ascii) : bool :=
  let n := nat_of_ascii c in
  ((9 <=? n) && (n <=? 13) || (28 <=? n) && (n <=? 32))%nat.

Definition is_digit (c : ascii) : bool :=
  let n := nat_of_ascii c in ((48 <=? n) && (n <=? 57))%nat.

Definition digit_value (c : ascii) : Z := Z.of_nat (nat_of_ascii c) - 48.

Fixpoint lstrip (s : string) : string :=
  match s with
  | EmptyString => EmptyString
  | String c s' => if is_space c then lstrip s' else s
  end.

Fixpoint rstrip (s : string) : string :=
  match s with
  | EmptyString => EmptyString
  | String c s' =>
      match rstrip s' with
      | EmptyString => if is_space c then EmptyString else String c EmptyString
      | r => String c r
      end
  end.

(** [s.strip()] *)
Definition strip (s : string) : string := rstrip (lstrip s).

(** [s.split(sep)] for a one-character separator: never the empty list. *)
Fixpoint split (sep : ascii) (s : string) : list string :=
  match s with
  | EmptyString => [EmptyString]
  | String c s' =>
      if Ascii.eqb c sep then EmptyString :: split sep s'
      else match split sep s' with
           | [] => [String c EmptyString]
           | w :: ws => String c w :: ws
           end
  end.

(** [s.split(sep, 1)]: cut at the first separator only. *)
Fixpoint split1 (sep : ascii) (s : string) : list string :=
  match s with
  | EmptyString => [EmptyString]
  | String c s' =>
      if Ascii.eqb c sep then [EmptyString; s']
      else match split1 sep s' with
           | [] => [String c EmptyString]
           | w :: ws => String c w :: ws
           end
  end.

(** [c in s] *)
Fixpoint contains (c : ascii) (s : string) : bool :=
  match s with
  | EmptyString => false
  | String d s' => Ascii.eqb d c || contains c s'
  end.

Definition lower_char (c : ascii) : ascii :=
  let n := nat_of_ascii c in
  if ((65 <=? n) && (n <=? 90))%nat then ascii_of_nat (n + 32) else c.

(** [s.lower()] *)
Fixpoint lower (s : string) : string :=
  match s with
  | EmptyString => EmptyString
  | String c s' => String (lower_char c) (lower s')
  end.

(** [s.endswith(suffix)] *)
Definition endswith (s suffix : string) : bool :=
  let n := String.length s in
  let k := String.length suffix in
  if (k <=? n)%nat then String.eqb (String.substring (n - k) k s) suffix
  else false.

(** The digits of an integer literal as [int] reads them: decimal digits,
    with single underscores allowed between two digits.  [seen] tells what
    the previous character was: [None] at the start, [Some true] after a
    digit, [Some false] after an underscore. *)
Fixpoint digits (acc : Z) (seen : option bool) (s : string) : option Z :=
  match s with
  | EmptyString =>
      match seen with
      | Some true => Some acc
      | _ => None
      end
  | String c s' =>
      if is_digit c then digits (10 * acc + digit_value c) (Some true) s'
      else if Ascii.eqb c "_" then
        match seen with
        | Some true => digits acc (Some false) s'
        | _ => None
        end
      else None
  end.

(** The whitespace [int] drops around a literal: TAB, LF, VT, FF, CR and
    the space.  The separators FS, GS, RS, US, which [strip] drops, are not
    among them. *)
Definition is_int_space (c : ascii) : bool :=
  let n := nat_of_ascii c in
  ((9 <=? n) && (n <=? 13) || (n =? 32))%nat.

Fixpoint int_lstrip (s : string) : string :=
  match s with
  | EmptyString => EmptyString
  | String c s' => if is_int_space c then int_lstrip s' else s
  end.

Fixpoint int_rstrip (s : string) : string :=
  match s with
  | EmptyString => EmptyString
  | String c s' =>
      match int_rstrip s' with
      | EmptyString =>
          if is_int_space c then EmptyString else String c EmptyString
      | r => String c r
      end
  end.

(** The number of decimal digits of a literal, underscores left out. *)
Fixpoint digit_count (s : string) : nat :=
  match s with
  | EmptyString => 0
  | String c s' => if is_digit c then S (digit_count s') else digit_count s'
  end.

(** The interpreter's default limit on the number of digits [int] converts
    ([sys.int_info.default_max_str_digits]). *)
Definition max_str_digits : nat := 4300.

(** [int(s)] in base ten: the whitespace around the literal is dropped, one
    sign is allowed, then come decimal digits with single underscores
    between them, no more digits than the interpreter's limit; anything
    else raises [ValueError]. *)
Definition int (s : string) : result Z :=
  let body := int_rstrip (int_lstrip s) in
  let '(negative, ds) :=
    match body with
    | String "-" ds => (true, ds)
    | String "+" ds => (false, ds)
    | ds => (false, ds)
    end in
  match digits 0 None ds with
  | Some n =>
      if (digit_count ds <=? max_str_digits)%nat then
        Ok (if negative : bool then - n else n)
      else Raise ValueError
  | None => Raise ValueError
  end.

End Str.

(** ** Built-ins on integers and lists *)

(** [list(range(a, b))] *)
Definition py_range (a b : Z) : list Z := seqZ a (b - a).

(** [sorted(s)] for a set of integers. *)
Definition sorted (s : gset Z) : list Z := merge_sort Z.le (elements s).

(** [l[i]] with Python's negative indices. *)
Definition py_index {A} (l : list A) (i : Z) : result A :=
  let n := Z.of_nat (length l) in
  let j := if i <? 0 then i + n else i in
  if (0 <=? j) && (j <? n) then
    match l !! Z.to_nat j with
    | Some x => Ok x
    | None => Raise IndexError
    end
  else Raise IndexError.

(** ** The page-range parser *)

(** The body of the loop of [_parse_pages] for one comma-separated part. *)
Definition parse_part (total_pages : Z) (selected : gset Z) (part : string)
  : result (gset Z) :=
  let part := Str.strip part in
  if String.eqb part "" then Ok selected
  else if Str.contains "-" part then
    match Str.split1 "-" part with
    | [a; b] =>
        ia ← Str.int a ;
        let start := Z.max 1 ia in
        ib ← Str.int b ;
        let end_ := Z.min total_pages ib in
        Ok (selected ∪ list_to_set (py_range (start - 1) end_))
    | _ => Raise ValueError
    end
  else
    idx ← Str.int part ;
    if (1 <=? idx) && (idx <=? total_pages) then Ok (selected ∪ {[ idx - 1 ]})
    else Ok selected.

Definition no_valid_pages : exn :=
  HTTPException 400 "No valid pages selected".

Definition _parse_pages (pages : option string) (total_pages : Z)
  : result (list Z) :=
  match pages with
  | None | Some EmptyString => Ok (py_range 0 total_pages)
  | Some pages =>
      selected ← for_each (parse_part total_pages) ∅ (Str.split "," pages) ;
      let ordered := sorted selected in
      match ordered with
      | [] => Raise no_valid_pages
      | _ => Ok ordered
      end
  end.

(** ** Documents, uploads and responses *)

(** A pypdf [ImageFile]: [image] is [None] when the object carries no PIL
    image, [Some None] when the PIL image has no [format], [Some (Some f)]
    when its format is [f]. *)
Record ImageFile : Type := {
  image : option (option string);
  data : list Byte.byte;
}.

(** A pypdf [PageObject]: [page_id] names the page's content, [rotation] is
    its [/Rotate] entry, and [images] lists the outcomes of the successive
    steps of iterating [page.images] (an [Ok] per image recovered, a [Raise]
    where the iteration raises). *)
Record PageObject : Type := {
  page_id : nat;
  rotation : Z;
  images : list (result ImageFile);
}.

(** The orientation a viewer shows: the [/Rotate] entry modulo a full turn. *)
Definition orientation (p : PageObject) : Z := rotation p mod 360.

(** [page.rotate(angle)] of pypdf: refuses an angle that is no multiple of
    90, otherwise adds the angle to the page's [/Rotate] entry. *)
Definition rotate (p : PageObject) (angle : Z) : result PageObject :=
  if angle mod 90 =? 0 then
    Ok {| page_id := page_id p;
          rotation := rotation p + angle;
          images := images p |}
  else Raise ValueError.

(** What opening an upload as an image gives: [Image.open] raises,
    [Image.open] succeeds and [convert] raises, or both succeed;
    [encodable] tells whether the PDF encoder accepts the converted image. *)
Inductive image_outcome : Type :=
  | NotAnImage
  | ConvertFails
  | Decodes (encodable : bool).

(** An [UploadFile]: its name and what the decoders make of its bytes,
    [read_pdf] for [PdfReader(BytesIO(await file.read())).pages] and
    [read_image] for [Image.open(BytesIO(content)).convert("RGB")]. *)
Record UploadFile : Type := {
  filename : string;
  read_pdf : result (list PageObject);
  read_image : image_outcome;
}.

(** The pages a [PdfWriter] holds, in the order they were added. *)
Definition PdfWriter : Type := list PageObject.

Definition add_page (writer : PdfWriter) (page : PageObject) : PdfWriter :=
  (writer ++ [page])%list.

(** What a [BytesIO] handed to a response holds. *)
Inductive buffer : Type :=
  | PdfBytes (pages : list PageObject)
  | ImagesPdfBytes (handles : list nat)
  | ZipBytes (entries : list (string * list Byte.byte)).

Inductive response : Type :=
  | StreamingResponse (body : buffer) (media_type : string)
      (headers : list (string * string))
  | JSONResponse (content : list (string * string)).

Definition _bytesio_response (buf : buffer) (filename : string)
    (media_type : string) : response :=
  StreamingResponse buf media_type
    [("Content-Disposition", "attachment; filename=" +:+ filename)].

Definition pdf_response (buf : buffer) (filename : string) : response :=
  _bytesio_response buf filename "application/pdf".

(** The value of a form field declared [Form(dflt)]. *)
Definition Form {A} (dflt : A) (field : option A) : A := default dflt field.

(** [str(e)]; for an [HTTPException] the status and the detail. *)
Definition str_exn (e : exn) : string :=
  match e with
  | HTTPException status_code detail => pretty status_code +:+ ": " +:+ detail
  | ValueError => "invalid literal for int() with base 10"
  | AttributeError => "'NoneType' object has no attribute 'lower'"
  | IndexError => "sequence index out of range"
  | LibraryError msg => msg
  end.

(** The status the framework answers with: the status of an [HTTPException],
    500 for any other exception that escapes the handler. *)
Definition status_of {A} (r : result A) : Z :=
  match r with
  | Ok _ => 200
  | Raise (HTTPException status_code _) => status_code
  | Raise _ => 500
  end.

Definition is_pdf_name (name : string) : bool :=
  Str.endswith (Str.lower name) ".pdf".

Definition must_be_pdf : exn := HTTPException 400 "File must be a PDF".

(** [enumerate(l, start)] *)
Fixpoint enumerate {A} (start : Z) (l : list A) : list (Z * A) :=
  match l with
  | [] => []
  | x :: l' => (start, x) :: enumerate (start + 1) l'
  end.

(** ** Merge *)

Definition merge_file (writer : PdfWriter) (f : UploadFile)
  : result PdfWriter :=
  if negb (is_pdf_name (filename f)) then
    Raise (HTTPException 400 (filename f +:+ " is not a PDF"))
  else
    pages ← read_pdf f ;
    Ok (foldl add_page writer pages).

Definition merge_pdfs (files : list UploadFile) : result response :=
  if (match files with [] => true | _ => false end)
     || (length files <? 2)%nat
  then Raise (HTTPException 400 "Upload at least two PDF files to merge")
  else
    match
      writer ← for_each merge_file [] files ;
      Ok (pdf_response (PdfBytes writer) "merged.pdf")
    with
    | Ok r => Ok r
    | Raise e => Raise (HTTPException 500 (str_exn e))
    end.

(** ** Split *)

Definition split_pdf (file : UploadFile) (pages : option string)
  : result response :=
  if negb (is_pdf_name (filename file)) then Raise must_be_pdf
  else
    reader_pages ← read_pdf file ;
    indices ← _parse_pages pages (Z.of_nat (length reader_pages)) ;
    writer ← for_each
      (λ writer i, page ← py_index reader_pages i ; Ok (add_page writer page))
      [] indices ;
    Ok (pdf_response (PdfBytes writer) "split.pdf").

(** ** Rotate *)

(** Truth value of an optional string: [None] and the empty string are
    false. *)
Definition truthy (pages : option string) : bool :=
  match pages with
  | None | Some EmptyString => false
  | Some _ => true
  end.

Definition rotate_targets (pages : option string) (total : Z)
  : result (gset Z) :=
  if truthy pages then
    l ← _parse_pages pages total ; Ok (list_to_set l)
  else Ok (list_to_set (py_range 0 total)).

Definition rotate_step (angle : Z) (indices : gset Z) (writer : PdfWriter)
    (ip : Z * PageObject) : result PdfWriter :=
  let '(i, page) := ip in
  page ← (if bool_decide (i ∈ indices) then rotate page angle else Ok page) ;
  Ok (add_page writer page).

Definition rotate_pdf (file : UploadFile) (angle_field : option Z)
    (pages : option string) : result response :=
  let angle := Form 90 angle_field in
  if negb (bool_decide (angle ∈ [90; 180; 270])) then
    Raise (HTTPException 400 "Angle must be 90, 180, or 270")
  else if negb (is_pdf_name (filename file)) then Raise must_be_pdf
  else
    reader_pages ← read_pdf file ;
    let total := Z.of_nat (length reader_pages) in
    indices ← rotate_targets pages total ;
    writer ← for_each (rotate_step angle indices) []
                      (enumerate 0 reader_pages) ;
    Ok (pdf_response (PdfBytes writer) "rotated.pdf").

(** ** Compress *)

Definition compress_pdf (file : UploadFile) : result response :=
  if negb (is_pdf_name (filename file)) then Raise must_be_pdf
  else
    reader_pages ← read_pdf file ;
    let writer := foldl add_page [] reader_pages in
    Ok (pdf_response (PdfBytes writer) "compressed.pdf").

(** ** Images to PDF *)

(** A decoded PIL image held by the handler: the handle of the object and
    whether the PDF encoder accepts it. *)
Record PILImage : Type := {
  handle : nat;
  encodable : bool;
}.

(** The state [images_to_pdf] works on: its local list [pil_images] and the
    image objects that were created and not closed. *)
Record conv_state : Type := {
  pil_images : list PILImage;
  next_handle : nat;
  open_handles : gset nat;
}.

Definition conv_init : conv_state :=
  {| pil_images := []; next_handle := 0; open_handles := ∅ |}.

(** Computations of the handler: they may raise and they change the state;
    the state reached is kept when they raise. *)
Definition Conv (A : Type) : Type := conv_state → result A * conv_state.

Module Conv.

Definition ret {A} (a : A) : Conv A := λ σ, (Ok a, σ).

Definition raise {A} (e : exn) : Conv A := λ σ, (Raise e, σ).

Definition bind {A B} (m : Conv A) (k : A → Conv B) : Conv B := λ σ,
  match m σ with
  | (Ok a, σ') => k a σ'
  | (Raise e, σ') => (Raise e, σ')
  end.

(** [try: m except Exception: handler] *)
Definition try_except {A} (m : Conv A) (handler : Conv A) : Conv A := λ σ,
  match m σ with
  | (Ok a, σ') => (Ok a, σ')
  | (Raise _, σ') => handler σ'
  end.

(** [for x in xs: body(x)] *)
Fixpoint for_in {A} (xs : list A) (body : A → Conv unit) : Conv unit :=
  match xs with
  | [] => ret ()
  | x :: xs' => bind (body x) (λ _, for_in xs' body)
  end.

(** A new image object. *)
Definition new_image : Conv nat := λ σ,
  (Ok (next_handle σ),
   {| pil_images := pil_images σ;
      next_handle := S (next_handle σ);
      open_handles := open_handles σ ∪ {[ next_handle σ ]} |}).

(** [Image.open(BytesIO(content))] *)
Definition Image_open (o : image_outcome) : Conv nat :=
  match o with
  | NotAnImage => raise (LibraryError "cannot identify image file")
  | _ => new_image
  end.

(** [im.convert("RGB")]: a new image object; the one it reads stays as it
    is. *)
Definition convert (o : image_outcome) : Conv PILImage :=
  match o with
  | Decodes enc =>
      bind new_image (λ h, ret {| handle := h; encodable := enc |})
  | _ => raise (LibraryError "image file is truncated")
  end.

(** [pil_images.append(im)] *)
Definition append (im : PILImage) : Conv unit := λ σ,
  (Ok (),
   {| pil_images := (pil_images σ ++ [im])%list;
      next_handle := next_handle σ;
      open_handles := open_handles σ |}).

(** The current value of [pil_images]. *)
Definition get_pil_images : Conv (list PILImage) := λ σ,
  (Ok (pil_images σ), σ).

(** [im.close()] *)
Definition close (im : PILImage) : Conv unit := λ σ,
  (Ok (),
   {| pil_images := pil_images σ;
      next_handle := next_handle σ;
      open_handles := open_handles σ ∖ {[ handle im ]} |}).

(** [first.save(pdf_bytes, format="PDF", save_all=True,
    append_images=rest)]: raises when the encoder refuses an image. *)
Definition save (first : PILImage) (rest : list PILImage) : Conv buffer :=
  if forallb encodable (first :: rest) then
    ret (ImagesPdfBytes (handle <$> first :: rest))
  else raise (LibraryError "encoder error when writing image file").

End Conv.

Notation "'do' x <- m ; k" := (Conv.bind m (λ x, k))
  (at level 10, x name, m at level 100, k at level 200, only parsing).

(** The body of the decoding loop for one upload. *)
Definition decode_image (img : UploadFile) : Conv unit :=
  do opened <- Conv.Image_open (read_image img) ;
  do im <- Conv.convert (read_image img) ;
  Conv.append im.

(** The two loops that close every image of [pil_images]. *)
Definition close_all : Conv unit :=
  do ims <- Conv.get_pil_images ;
  Conv.for_in ims
    (λ im, Conv.try_except (Conv.close im) (Conv.ret ())).

Definition images_to_pdf (images : list UploadFile)
    (page_size : option string) : Conv response :=
  match images with
  | [] => Conv.raise (HTTPException 400 "Upload at least one image")
  | _ =>
      do _ <- Conv.try_except (Conv.for_in images decode_image)
                (do _ <- close_all ;
                 Conv.raise
                   (HTTPException 400 "One or more files are not valid images")) ;
      do ims <- Conv.get_pil_images ;
      match ims with
      | [] => Conv.raise IndexError
      | first :: rest =>
          do pdf_bytes <- Conv.save first rest ;
          do _ <- close_all ;
          Conv.ret (_bytesio_response pdf_bytes "images.pdf" "application/pdf")
      end
  end.

(** ** Extract images *)

(** The extension of an entry: the lower-cased format of the PIL image, or
    ["bin"] when the object has no PIL image. *)
Definition image_ext (o : ImageFile) : result string :=
  match image o with
  | Some (Some fmt) => Ok (Str.lower fmt)
  | Some None => Raise AttributeError
  | None => Ok "bin"
  end.

(** The state of the extraction loop: the entries written to the archive
    [zf] so far and the counter [img_count]. *)
Record extract_state : Type := {
  zf : list (string * list Byte.byte);
  img_count : Z;
}.

Definition entry_name (page_idx img_count : Z) (ext : string) : string :=
  "page" +:+ pretty page_idx +:+ "_img" +:+ pretty img_count +:+ "." +:+ ext.

(** The inner loop over [page.images]: the state it reaches, and the
    exception that ended it if one did. *)
Fixpoint page_images (page_idx : Z) (items : list (result ImageFile))
    (st : extract_state) : result unit * extract_state :=
  match items with
  | [] => (Ok (), st)
  | Raise e :: _ => (Raise e, st)
  | Ok image_file_object :: items' =>
      let count := img_count st + 1 in
      match image_ext image_file_object with
      | Raise e => (Raise e, {| zf := zf st; img_count := count |})
      | Ok ext =>
          let name := entry_name page_idx count ext in
          page_images page_idx items'
            {| zf := (zf st ++ [(name, data image_file_object)])%list;
               img_count := count |}
      end
  end.

(** The outer loop: an exception of the inner loop is dropped and the loop
    goes on with the next page. *)
Fixpoint extract_pages (pages : list (Z * PageObject)) (st : extract_state)
  : extract_state :=
  match pages with
  | [] => st
  | (page_idx, page) :: pages' =>
      extract_pages pages' (snd (page_images page_idx (images page) st))
  end.

Definition extract_init : extract_state := {| zf := []; img_count := 0 |}.

Definition no_images : response :=
  JSONResponse [("message", "No extractable images found")].

Section ExtractImages.

(** The bytes an entry takes in the archive: its local header, its
    deflated data and its record in the central directory. *)
Variable entry_nbytes : string * list Byte.byte → nat.

(** [zip_buf.getbuffer().nbytes] once the [ZipFile] is closed: the
    entries, and the 22 bytes of the end-of-central-directory record that
    closing a [ZipFile] opened for writing always writes. *)
Definition zip_nbytes (entries : list (string * list Byte.byte)) : nat :=
  (sum_list (entry_nbytes <$> entries) + 22)%nat.

Definition extract_images (file : UploadFile) : result response :=
  if negb (is_pdf_name (filename file)) then Raise must_be_pdf
  else
    reader_pages ← read_pdf file ;
    let st := extract_pages (enumerate 1 reader_pages) extract_init in
    if (zip_nbytes (zf st) =? 0)%nat then Ok no_images
    else Ok (_bytesio_response (ZipBytes (zf st)) "images.zip"
               "application/zip").

End ExtractImages.

(** ** The diagnostic endpoint *)

(** The values of the dictionary [test_database] answers with. *)
Inductive json : Type :=
  | JStr (s : string)
  | JNone
  | JList (l : list string).

(** The object [db] of the [database] module: its attribute [name], when
    it has one, and what [db.list_collection_names()] does. *)
Record Database : Type := {
  db_name : option string;
  list_collection_names : result (list string);
}.

(** What [from database import db] does: it raises [ImportError], it
    raises another exception, or it binds [db], which may be [None]. *)
Inductive import_db : Type :=
  | ModuleNotFound
  | ImportRaises (e : exn)
  | Imported (db : option Database).

(** [s[:n]] on a string. *)
Definition str_take (n : nat) (s : string) : string := String.substring 0 n s.

(** The dictionary [test_database] starts from. *)
Definition test_database_init : gmap string json :=
  <["backend" := JStr "✅ Running"]>
  (<["database" := JStr "❌ Not Available"]>
  (<["database_url" := JNone]>
  (<["database_name" := JNone]>
  (<["connection_status" := JStr "Not Connected"]>
  (<["collections" := JList []]> ∅))))).

(** What the [try] block of [test_database] makes of the dictionary. *)
Definition probe_database (module : import_db) (response : gmap string json)
  : gmap string json :=
  match module with
  | Imported (Some db) =>
      let response := <["database" := JStr "✅ Available"]> response in
      let response :=
        <["database_url" := JStr "✅ Configured"]> response in
      let response :=
        <["database_name" := JStr (default "✅ Connected" (db_name db))]>
          response in
      let response :=
        <["connection_status" := JStr "Connected"]> response in
      match list_collection_names db with
      | Ok collections =>
          let response :=
            <["collections" := JList (take 10 collections)]> response in
          <["database" := JStr "✅ Connected & Working"]> response
      | Raise e =>
          <["database" :=
              JStr ("⚠️  Connected but Error: "
                    +:+ str_take 50 (str_exn e))]> response
      end
  | Imported None =>
      <["database" := JStr "⚠️  Available but not initialized"]> response
  | ModuleNotFound =>
      <["database" :=
          JStr "❌ Database module not found (run enable-database first)"]>
        response
  | ImportRaises e =>
      <["database" := JStr ("❌ Error: " +:+ str_take 50 (str_exn e))]>
        response
  end.

(** ["✅ Set"] when the variable of the environment is set to a non-empty
    value. *)
Definition env_flag (value : option string) : json :=
  JStr (if truthy value then "✅ Set" else "❌ Not Set").

Definition test_database (module : import_db)
    (getenv : string → option string) : gmap string json :=
  let response := probe_database module test_database_init in
  let response :=
    <["database_url" := env_flag (getenv "DATABASE_URL")]> response in
  let response :=
    <["database_name" := env_flag (getenv "DATABASE_NAME")]> response in
  response.

(** * Vocabulary of the properties *)

(** Every index selected so far is a valid zero-based page index. *)
Definition in_bounds (total_pages : Z) (selected : gset Z) : Prop :=
  ∀ i, i ∈ selected → 0 ≤ i ≤ total_pages - 1.

(** The computation returns. *)
Definition is_ok {A} (r : result A) : bool :=
  match r with
  | Ok _ => true
  | Raise _ => false
  end.

(** A part the parser can read: blank, a literal that [int] accepts, or
    two such literals around its first hyphen. *)
Definition well_formed_part (part : string) : bool :=
  let part := Str.strip part in
  if String.eqb part "" then true
  else if Str.contains "-" part then
    match Str.split1 "-" part with
    | [a; b] => is_ok (Str.int a) && is_ok (Str.int b)
    | _ => false
    end
  else is_ok (Str.int part).

(** The pages of [src] at the positions [indices], in the order of
    [indices]. *)
Definition pages_at (src : list PageObject) (indices : list Z)
    (out : list PageObject) : Prop :=
  Forall2 (λ i p, src !! Z.to_nat i = Some p) indices out.

(** A page without images, with content [n] and [/Rotate] entry [r]. *)
Definition page (n : nat) (r : Z) : PageObject :=
  {| page_id := n; rotation := r; images := [] |}.

(** An upload that decodes as the PDF document [pages]. *)
Definition pdf_upload (name : string) (pages : list PageObject) : UploadFile :=
  {| filename := name; read_pdf := Ok pages; read_image := NotAnImage |}.

(** The page with [angle] added to its [/Rotate] entry. *)
Definition turned (angle : Z) (p : PageObject) : PageObject :=
  {| page_id := page_id p; rotation := rotation p + angle;
     images := images p |}.

(** What rotation makes of the page at index [i]. *)
Definition rotated_page (angle : Z) (targets : gset Z) (i : Z)
    (p : PageObject) : PageObject :=
  if bool_decide (i ∈ targets) then turned angle p else p.

(** The error of the angle check of [rotate_pdf]. *)
Definition angle_error : exn :=
  HTTPException 400 "Angle must be 90, 180, or 270".

(** Four quarter turns applied to one page, one after the other. *)
Definition four_quarter_turns (p : PageObject) : result PageObject :=
  p1 ← rotate p 90 ; p2 ← rotate p1 90 ; p3 ← rotate p2 90 ; rotate p3 90.

(** The response with its attachment renamed. *)
Definition renamed (name : string) (r : result response) : result response :=
  match r with
  | Ok (StreamingResponse body media_type _) =>
      Ok (_bytesio_response body name media_type)
  | _ => r
  end.

(** Every image of [pil_images] is closed. *)
Definition released (σ : conv_state) : Prop :=
  ∀ im, im ∈ pil_images σ → handle im ∉ open_handles σ.

(** The upload opens and converts as an image. *)
Definition decodes (img : UploadFile) : bool :=
  match read_image img with
  | Decodes _ => true
  | _ => false
  end.

(** The error [images_to_pdf] raises when an upload is no image. *)
Definition invalid_images : exn :=
  HTTPException 400 "One or more files are not valid images".

(** An upload that is an image with outcome [o], and no PDF. *)
Definition image_upload (name : string) (o : image_outcome) : UploadFile :=
  {| filename := name; read_pdf := Raise (LibraryError "not a PDF");
     read_image := o |}.

(** The answer of [extract_images] that streams the archive. *)
Definition zip_response (entries : list (string * list Byte.byte))
  : response :=
  _bytesio_response (ZipBytes entries) "images.zip" "application/zip".

(** The entries extraction writes for the pages [src]. *)
Definition extracted (src : list PageObject)
  : list (string * list Byte.byte) :=
  zf (extract_pages (enumerate 1 src) extract_init).

(** An embedded image with PIL format [fmt] and data [bytes]. *)
Definition image_file (fmt : option (option string)) (bytes : list Byte.byte)
  : ImageFile :=
  {| image := fmt; data := bytes |}.

(** A page whose enumeration of images goes through [items]. *)
Definition page_with_images (n : nat) (items : list (result ImageFile))
  : PageObject :=
  {| page_id := n; rotation := 0; images := items |}.

(** The images of a page that are read before the first error: each with
    the extension of its entry and its data. *)
Fixpoint readable_prefix (items : list (result ImageFile))
  : list (string * list Byte.byte) :=
  match items with
  | Ok o :: items' =>
      match image_ext o with
      | Ok ext => (ext, data o) :: readable_prefix items'
      | Raise _ => []
      end
  | _ => []
  end.

(** The entries of page [page_idx] for the images [l], the counter being
    at [count] before the first of them. *)
Fixpoint named (page_idx count : Z) (l : list (string * list Byte.byte))
  : list (string * list Byte.byte) :=
  match l with
  | [] => []
  | (ext, bytes) :: l' =>
      (entry_name page_idx (count + 1) ext, bytes)
      :: named page_idx (count + 1) l'
  end.

(** The part selects the zero-based index [i] of a document of
    [total_pages] pages: a number [n] selects [n - 1] when
    [1 <= n <= total_pages]; a range [a-b] selects the indices from
    [max 1 a - 1] up to, and without, [min total_pages b]. *)
Definition selects (total_pages : Z) (part : string) (i : Z) : Prop :=
  Str.strip part ≠ "" ∧
  if Str.contains "-" (Str.strip part) then
    ∃ a b ia ib,
      Str.split1 "-" (Str.strip part) = [a; b]
      ∧ Str.int a = Ok ia ∧ Str.int b = Ok ib
      ∧ Z.max 1 ia - 1 ≤ i < Z.min total_pages ib
  else
    ∃ n, Str.int (Str.strip part) = Ok n ∧ 1 ≤ n ≤ total_pages ∧ i = n - 1.

(** Whether the PDF encoder accepts the image an upload decodes to. *)
Definition upload_encodable (img : UploadFile) : bool :=
  match read_image img with
  | Decodes enc => enc
  | _ => false
  end.

(** The images decoding appends to [pil_images] for the uploads [images],
    the first free handle being [next]: the upload at position [k] gives
    the source image [next + 2k] and the converted image [next + 2k + 1]. *)
Fixpoint decoded_images (next : nat) (images : list UploadFile)
  : list PILImage :=
  match images with
  | [] => []
  | img :: images' =>
      {| handle := S next; encodable := upload_encodable img |}
      :: decoded_images (S (S next)) images'
  end.

(** The status [images_to_pdf] answers with, read off its uploads. *)
Definition images_status (images : list UploadFile) : Z :=
  match images with
  | [] => 400
  | _ =>
      if forallb decodes images then
        if forallb upload_encodable images then 200 else 500
      else 400
  end.

(** No step of the enumeration of the images of the page raises, and every
    image has an extension. *)
Definition clean (p : PageObject) : Prop :=
  Forall (λ item, ∃ o ext, item = Ok o ∧ image_ext o = Ok ext) (images p).

(** The number of images the pages hold. *)
Definition image_total (pages : list PageObject) : nat :=
  sum_list ((λ p, length (images p)) <$> pages).

(** The string is made of decimal digits. *)
Fixpoint all_digits (s : string) : bool :=
  match s with
  | EmptyString => true
  | String c s' => Str.is_digit c && all_digits s'
  end.

(** The string starts with a character that is no digit. *)
Definition starts_without_digit (s : string) : Prop :=
  match s with
  | EmptyString => False
  | String c _ => Str.is_digit c = false
  end.

(** The entries are named after the counters [cs], one each, by pages
    numbered from 0 or more. *)
Definition named_by (entries : list (string * list Byte.byte))
    (cs : list Z) : Prop :=
  Forall2 (λ e c, ∃ page_idx ext, 0 ≤ page_idx ∧ e.1 = entry_name page_idx c ext)
    entries cs.

(** The entries written so far carry counters that grow strictly and lie
    between 1 and the current value of the counter. *)
Definition counted (st : extract_state) : Prop :=
  ∃ cs, named_by (zf st) cs
    ∧ StronglySorted Z.lt cs
    ∧ Forall (λ c, 0 < c ≤ img_count st) cs.

(** * Properties *)

(** ** Sorting a set *)

Lemma StronglySorted_le_NoDup_lt (l : list Z) :
  StronglySorted Z.le l → NoDup l → StronglySorted Z.lt l.
Proof.
  induction 1 as [|x l Hs IH Hall]; intros Hnd; [constructor|].
  apply NoDup_cons in Hnd as [Hx Hnd]. constructor; [auto|].
  rewrite Forall_forall in *. intros y Hy. specialize (Hall y Hy).
  assert (x ≠ y) by (intros ->; done). lia.
Qed.

Lemma sorted_Permutation (s : gset Z) : sorted s ≡ₚ elements s.
Proof. apply merge_sort_Permutation. Qed.

Lemma elem_of_sorted (s : gset Z) (i : Z) : i ∈ sorted s ↔ i ∈ s.
Proof. by rewrite sorted_Permutation, elem_of_elements. Qed.

Lemma NoDup_sorted (s : gset Z) : NoDup (sorted s).
Proof. rewrite sorted_Permutation. apply NoDup_elements. Qed.

Lemma sorted_ascending (s : gset Z) : StronglySorted Z.lt (sorted s).
Proof.
  apply StronglySorted_le_NoDup_lt; [|apply NoDup_sorted].
  apply StronglySorted_merge_sort; apply _.
Qed.

Lemma sorted_nil (s : gset Z) : sorted s = [] ↔ s = ∅.
Proof.
  split.
  - intros Hnil. apply set_eq. intros i.
    rewrite <- elem_of_sorted, Hnil. set_solver.
  - intros ->. reflexivity.
Qed.

(** ** The page-range parser *)

Lemma elem_of_py_range (a b i : Z) : i ∈ py_range a b ↔ a ≤ i < b.
Proof. unfold py_range. rewrite elem_of_seqZ. lia. Qed.

Lemma py_range_from_zero (n : Z) :
  py_range 0 n = Z.of_nat <$> seq 0 (Z.to_nat n).
Proof.
  unfold py_range, seqZ. rewrite Z.sub_0_r.
  apply list_fmap_ext. intros _ i _. lia.
Qed.

Lemma py_range_ascending (a b : Z) : StronglySorted Z.lt (py_range a b).
Proof.
  unfold py_range. remember (Z.to_nat (b - a)) as k eqn:Hk.
  revert a b Hk. induction k as [|k IH]; intros a b Hk.
  - rewrite seqZ_nil by lia. constructor.
  - rewrite seqZ_cons by lia. constructor.
    + replace (Z.pred (b - a)) with (b - Z.succ a) by lia. apply IH. lia.
    + apply Forall_seqZ. lia.
Qed.

Lemma parse_part_in_bounds total_pages selected part selected' :
  parse_part total_pages selected part = Ok selected' →
  in_bounds total_pages selected → in_bounds total_pages selected'.
Proof.
  unfold parse_part, in_bounds. intros Hpart Hsel.
  destruct (String.eqb (Str.strip part) ""); [by simplify_eq|].
  destruct (Str.contains "-" (Str.strip part)).
  - destruct (Str.split1 "-" (Str.strip part)) as [|a [|b [|? ?]]];
      try discriminate.
    destruct (Str.int a) as [ia|]; [|discriminate].
    destruct (Str.int b) as [ib|]; [|discriminate].
    simpl in Hpart. simplify_eq. intros i.
    rewrite elem_of_union, elem_of_list_to_set, elem_of_py_range.
    intros [?|?]; [auto|lia].
  - destruct (Str.int (Str.strip part)) as [idx|]; [|discriminate].
    simpl in Hpart.
    destruct (1 <=? idx) eqn:H1, (idx <=? total_pages) eqn:H2;
      simpl in Hpart; simplify_eq; auto.
    intros i. rewrite elem_of_union, elem_of_singleton.
    intros [?| ->]; [auto|lia].
Qed.

Lemma for_each_invariant {A S} (P : S → Prop) (body : S → A → result S) :
  (∀ st x st', body st x = Ok st' → P st → P st') →
  ∀ xs st st', for_each body st xs = Ok st' → P st → P st'.
Proof.
  intros Hbody. induction xs as [|x xs IH]; intros st st' Hrun Hst.
  - simpl in Hrun. by simplify_eq.
  - simpl in Hrun. destruct (body st x) as [st1|] eqn:Hx; [|discriminate].
    simpl in Hrun. eauto.
Qed.

Lemma parse_pages_selected pages total_pages ordered :
  pages ≠ "" →
  _parse_pages (Some pages) total_pages = Ok ordered →
  ∃ selected,
    for_each (parse_part total_pages) ∅ (Str.split "," pages) = Ok selected
    ∧ ordered = sorted selected ∧ selected ≠ ∅.
Proof.
  intros Hne Hparse. destruct pages as [|c pages]; [done|].
  unfold _parse_pages in Hparse.
  destruct (for_each _ _ _) as [selected|]; [|discriminate].
  simpl in Hparse. exists selected.
  destruct (sorted selected) as [|i l] eqn:Hsorted; [discriminate|].
  simplify_eq. split; [done|]. split; [done|].
  intros ->. discriminate.
Qed.

Lemma parse_pages_sound pages total_pages ordered :
  _parse_pages pages total_pages = Ok ordered →
  StronglySorted Z.lt ordered ∧ NoDup ordered
  ∧ Forall (λ i, 0 ≤ i ≤ total_pages - 1) ordered.
Proof.
  intros Hparse.
  assert (Hfull : ∀ l, l = py_range 0 total_pages →
    StronglySorted Z.lt l ∧ NoDup l ∧ Forall (λ i, 0 ≤ i ≤ total_pages - 1) l).
  { intros l ->. split; [apply py_range_ascending|].
    split; [apply NoDup_seqZ|]. apply Forall_seqZ. lia. }
  destruct pages as [[|c pages]|]; [apply Hfull; simpl in *; congruence| |
    apply Hfull; simpl in *; congruence].
  apply parse_pages_selected in Hparse as (selected & Hrun & -> & _); [|done].
  split; [apply sorted_ascending|]. split; [apply NoDup_sorted|].
  apply Forall_forall. intros i Hi%elem_of_sorted. revert i Hi.
  eapply (for_each_invariant (in_bounds total_pages)); [|exact Hrun|].
  - intros st x st'. apply parse_part_in_bounds.
  - intros i Hi. set_solver.
Qed.

(** C1: whatever the expression and the page count [N >= 0], a list the
    parser returns is strictly ascending, has no duplicates and holds only
    indices of [0 .. N-1]; for an absent or an empty expression it returns
    exactly [0, 1, ..., N-1]; and ["1-3,5,8-9"] against 10 pages gives
    [0,1,2,4,7,8]. *)
Theorem parse_pages_ascending_in_range :
  (∀ pages N ordered,
     0 ≤ N → _parse_pages pages N = Ok ordered →
     StronglySorted Z.lt ordered ∧ NoDup ordered
     ∧ Forall (λ i, 0 ≤ i ≤ N - 1) ordered)
  ∧ (∀ N, 0 ≤ N →
       _parse_pages None N = Ok (Z.of_nat <$> seq 0 (Z.to_nat N))
       ∧ _parse_pages (Some "") N = Ok (Z.of_nat <$> seq 0 (Z.to_nat N)))
  ∧ _parse_pages (Some "1-3,5,8-9") 10 = Ok [0; 1; 2; 4; 7; 8].
Proof.
  split; [|split].
  - intros pages N ordered _. apply parse_pages_sound.
  - intros N _. simpl. by rewrite py_range_from_zero.
  - vm_compute. reflexivity.
Qed.

Lemma parse_pages_ascending_in_range_witness :
  (StronglySorted Z.lt [0; 1; 4] ∧ NoDup [0; 1; 4]
   ∧ Forall (λ i, 0 ≤ i ≤ 6 - 1) [0; 1; 4])
  ∧ _parse_pages None 3 = Ok [0; 1; 2].
Proof.
  split.
  - apply (proj1 parse_pages_ascending_in_range (Some "5,1-2") 6 [0; 1; 4]).
    + lia.
    + vm_compute. reflexivity.
  - apply (proj1 (proj2 parse_pages_ascending_in_range) 3). lia.
Defined.

(** ** Errors of the parser *)

Lemma int_raises s e : Str.int s = Raise e → e = ValueError.
Proof.
  unfold Str.int. intros H.
  repeat (case_match; simplify_eq); done.
Qed.

Lemma parse_part_well_formed total_pages selected part :
  well_formed_part part = true →
  ∃ selected', parse_part total_pages selected part = Ok selected'.
Proof.
  unfold well_formed_part, parse_part.
  destruct (String.eqb (Str.strip part) ""); [eauto|].
  destruct (Str.contains "-" (Str.strip part)).
  - destruct (Str.split1 "-" (Str.strip part)) as [|a [|b [|? ?]]];
      try discriminate.
    destruct (Str.int a), (Str.int b); try discriminate. simpl. eauto.
  - destruct (Str.int (Str.strip part)) as [idx|]; [|discriminate].
    simpl. case_match; eauto.
Qed.

Lemma parse_part_malformed total_pages selected part :
  well_formed_part part = false →
  parse_part total_pages selected part = Raise ValueError.
Proof.
  unfold well_formed_part, parse_part.
  destruct (String.eqb (Str.strip part) ""); [discriminate|].
  destruct (Str.contains "-" (Str.strip part)).
  - destruct (Str.split1 "-" (Str.strip part)) as [|a [|b [|? ?]]];
      try done.
    destruct (Str.int a) as [ia|e1] eqn:Ha.
    + destruct (Str.int b) as [ib|e2] eqn:Hb; [discriminate|].
      intros _. simpl. by rewrite (int_raises _ _ Hb).
    + intros _. simpl. by rewrite (int_raises _ _ Ha).
  - destruct (Str.int (Str.strip part)) as [idx|e] eqn:Hi; [discriminate|].
    intros _. simpl. by rewrite (int_raises _ _ Hi).
Qed.

Lemma for_each_well_formed total_pages parts :
  ∀ selected,
  forallb well_formed_part parts = true →
  ∃ selected', for_each (parse_part total_pages) selected parts = Ok selected'.
Proof.
  induction parts as [|part parts IH]; intros selected Hall; simpl; [eauto|].
  simpl in Hall. apply andb_true_iff in Hall as [Hpart Hall].
  destruct (parse_part_well_formed total_pages selected part Hpart)
    as [selected1 ->].
  simpl. by apply IH.
Qed.

Lemma for_each_malformed total_pages parts :
  ∀ selected,
  forallb well_formed_part parts = false →
  for_each (parse_part total_pages) selected parts = Raise ValueError.
Proof.
  induction parts as [|part parts IH]; intros selected Hall; simpl;
    [discriminate|].
  simpl in Hall. destruct (well_formed_part part) eqn:Hpart.
  - destruct (parse_part_well_formed total_pages selected part Hpart)
      as [selected1 ->].
    simpl. by apply IH.
  - by rewrite parse_part_malformed.
Qed.

Lemma parse_pages_of_selected pages total_pages selected :
  pages ≠ "" →
  for_each (parse_part total_pages) ∅ (Str.split "," pages) = Ok selected →
  _parse_pages (Some pages) total_pages =
    if decide (selected = ∅) then Raise no_valid_pages
    else Ok (sorted selected).
Proof.
  intros Hne Hrun. destruct pages as [|c pages]; [done|].
  unfold _parse_pages. rewrite Hrun. simpl.
  destruct (decide (selected = ∅)) as [->|Hsel]; [done|].
  destruct (sorted selected) eqn:Hsorted; [|done].
  by apply sorted_nil in Hsorted.
Qed.

Lemma parse_pages_raises pages total_pages e :
  _parse_pages pages total_pages = Raise e →
  e = no_valid_pages ∨ e = ValueError.
Proof.
  destruct pages as [[|c pages]|]; try discriminate. intros Hraise.
  destruct (forallb well_formed_part (Str.split "," (String c pages)))
    eqn:Hwf.
  - destruct (for_each_well_formed total_pages _ ∅ Hwf) as [selected Hrun].
    rewrite (parse_pages_of_selected _ _ selected) in Hraise by done.
    case_decide; simplify_eq. by left.
  - unfold _parse_pages in Hraise.
    rewrite (for_each_malformed total_pages _ ∅ Hwf) in Hraise.
    simpl in Hraise. simplify_eq. by right.
Qed.




(** ** Page assembly *)

Lemma foldl_add_page (writer : PdfWriter) (pages : list PageObject) :
  foldl add_page writer pages = (writer ++ pages)%list.
Proof.
  revert writer. induction pages as [|p pages IH]; intros writer; simpl.
  - by rewrite app_nil_r.
  - rewrite IH. unfold add_page. by rewrite <- app_assoc.
Qed.

Lemma py_index_in_range {A} (l : list A) (i : Z) :
  0 ≤ i ≤ Z.of_nat (length l) - 1 →
  ∃ x, py_index l i = Ok x ∧ l !! Z.to_nat i = Some x.
Proof.
  intros Hi. unfold py_index.
  destruct (i <? 0) eqn:Hneg; [lia|].
  destruct (0 <=? i) eqn:H0; [|lia].
  destruct (i <? Z.of_nat (length l)) eqn:H1; [|lia]. simpl.
  destruct (l !! Z.to_nat i) as [x|] eqn:Hx; [eauto|].
  apply lookup_ge_None in Hx. lia.
Qed.

Lemma split_loop (src : list PageObject) (indices : list Z) :
  Forall (λ i, 0 ≤ i ≤ Z.of_nat (length src) - 1) indices →
  ∀ writer, ∃ out,
    for_each
      (λ writer i, page ← py_index src i ; Ok (add_page writer page))
      writer indices = Ok (writer ++ out)%list
    ∧ pages_at src indices out.
Proof.
  induction 1 as [|i indices Hi Hall IH]; intros writer.
  - exists []. simpl. rewrite app_nil_r. split; [done|constructor].
  - destruct (py_index_in_range src i Hi) as (p & Hidx & Hp).
    destruct (IH (add_page writer p)) as (out & Hrun & Hout).
    exists (p :: out). simpl. rewrite Hidx. simpl. rewrite Hrun.
    unfold add_page. rewrite <- app_assoc. split; [done|].
    by constructor.
Qed.

Lemma split_pdf_pages file pages src indices :
  is_pdf_name (filename file) = true →
  read_pdf file = Ok src →
  _parse_pages pages (Z.of_nat (length src)) = Ok indices →
  ∃ out,
    split_pdf file pages = Ok (pdf_response (PdfBytes out) "split.pdf")
    ∧ pages_at src indices out.
Proof.
  intros Hname Hread Hparse. unfold split_pdf.
  rewrite Hname, Hread. simpl. rewrite Hparse. simpl.
  destruct (parse_pages_sound _ _ _ Hparse) as (_ & _ & Hrange).
  destruct (split_loop src indices Hrange []) as (out & -> & Hout).
  simpl. eauto.
Qed.

Lemma pages_at_full_range (src : list PageObject) :
  pages_at src (py_range 0 (Z.of_nat (length src))) src.
Proof.
  unfold pages_at. apply Forall2_same_length_lookup_2.
  - rewrite py_range_from_zero, length_fmap, length_seq. lia.
  - intros k i p Hi Hp. rewrite py_range_from_zero, Nat2Z.id in Hi.
    rewrite list_lookup_fmap in Hi.
    destruct (seq 0 (length src) !! k) as [j|] eqn:Hj; [|done].
    apply lookup_seq in Hj as [-> _]. simpl in Hi. simplify_eq.
    by rewrite Nat2Z.id.
Qed.

Lemma pages_at_unique src indices out1 out2 :
  pages_at src indices out1 → pages_at src indices out2 → out1 = out2.
Proof.
  unfold pages_at. intros H1. revert out2.
  induction H1 as [|i p indices out1 Hp _ IH]; intros out2 H2.
  - by apply Forall2_nil_inv_l in H2.
  - apply Forall2_cons_inv_l in H2 as (q & out2' & Hq & H2 & ->).
    f_equal; [congruence|auto].
Qed.

(** C7: the document split returns holds exactly the source pages at the
    parsed indices, in ascending order of index whatever the order of the
    parts of the expression; ["5,1-2"] on six pages gives the pages
    numbered 1, 2 and 5, in that order. *)
Theorem split_pages_in_ascending_order :
  (∀ file pages src indices,
     is_pdf_name (filename file) = true →
     read_pdf file = Ok src →
     _parse_pages pages (Z.of_nat (length src)) = Ok indices →
     ∃ out,
       split_pdf file pages = Ok (pdf_response (PdfBytes out) "split.pdf")
       ∧ StronglySorted Z.lt indices
       ∧ pages_at src indices out)
  ∧ (∀ p1 p2 p3 p4 p5 p6 img,
       split_pdf {| filename := "doc.pdf";
                    read_pdf := Ok [p1; p2; p3; p4; p5; p6];
                    read_image := img |} (Some "5,1-2")
       = Ok (pdf_response (PdfBytes [p1; p2; p5]) "split.pdf")).
Proof.
  split.
  - intros file pages src indices Hname Hread Hparse.
    destruct (split_pdf_pages file pages src indices) as (out & Hsplit & Hout);
      [done..|].
    exists out. split; [done|]. split; [|done].
    by destruct (parse_pages_sound _ _ _ Hparse).
  - intros p1 p2 p3 p4 p5 p6 img.
    destruct (split_pdf_pages
                {| filename := "doc.pdf";
                   read_pdf := Ok [p1; p2; p3; p4; p5; p6];
                   read_image := img |} (Some "5,1-2")
                [p1; p2; p3; p4; p5; p6] [0; 1; 4])
      as (out & -> & Hout); [by vm_compute..|].
    do 3 f_equal.
    apply (pages_at_unique [p1; p2; p3; p4; p5; p6] [0; 1; 4]); [done|].
    repeat constructor.
Qed.

Lemma split_pages_in_ascending_order_witness :
  ∃ out,
    split_pdf (pdf_upload "six.pdf"
                 [page 1 0; page 2 0; page 3 0; page 4 0; page 5 0; page 6 0])
      (Some "5,1-2")
    = Ok (pdf_response (PdfBytes out) "split.pdf")
    ∧ StronglySorted Z.lt [0; 1; 4]
    ∧ pages_at [page 1 0; page 2 0; page 3 0; page 4 0; page 5 0; page 6 0]
        [0; 1; 4] out.
Proof.
  apply (proj1 split_pages_in_ascending_order
           (pdf_upload "six.pdf"
              [page 1 0; page 2 0; page 3 0; page 4 0; page 5 0; page 6 0])
           (Some "5,1-2")).
  - vm_compute. reflexivity.
  - reflexivity.
  - vm_compute. reflexivity.
Defined.

(** Splitting with no page range returns the pages of the source as they
    are. *)
Lemma split_pdf_full_range file src :
  is_pdf_name (filename file) = true →
  read_pdf file = Ok src →
  split_pdf file None = Ok (pdf_response (PdfBytes src) "split.pdf").
Proof.
  intros Hname Hread.
  destruct (split_pdf_pages file None src (py_range 0 (Z.of_nat (length src))))
    as (out & -> & Hout); [done..|].
  do 3 f_equal. eapply pages_at_unique; [done|apply pages_at_full_range].
Qed.

(** ** Rotation *)

Lemma rotate_turned p angle :
  angle mod 90 = 0 → rotate p angle = Ok (turned angle p).
Proof. intros H. unfold rotate. by rewrite H. Qed.

Lemma orientation_turned angle p :
  orientation (turned angle p) = (orientation p + angle) mod 360.
Proof. unfold orientation. simpl. by rewrite Zplus_mod_idemp_l. Qed.

Lemma rotate_loop angle targets src :
  angle mod 90 = 0 →
  ∀ start writer, ∃ out,
    for_each (rotate_step angle targets) writer (enumerate start src)
      = Ok (writer ++ out)%list
    ∧ length out = length src
    ∧ ∀ (i : nat) p, src !! i = Some p →
        out !! i = Some (rotated_page angle targets (start + Z.of_nat i) p).
Proof.
  intros Hangle. induction src as [|p src IH]; intros start writer.
  - exists []. simpl. rewrite app_nil_r. split; [done|]. split; [done|].
    intros i q Hq. done.
  - simpl. set (q := rotated_page angle targets start p).
    assert (Hstep : (if bool_decide (start ∈ targets) then rotate p angle
                     else Ok p) = Ok q).
    { unfold q, rotated_page.
      destruct (bool_decide (start ∈ targets)); [|done].
      by apply rotate_turned. }
    rewrite Hstep. simpl.
    destruct (IH (start + 1) (add_page writer q))
      as (out & Hrun & Hlen & Hout).
    exists (q :: out). rewrite Hrun. unfold add_page. rewrite <- app_assoc.
    split; [done|]. split; [simpl; lia|].
    intros [|i] r Hr; simpl in *.
    + simplify_eq. by rewrite Z.add_0_r.
    + rewrite (Hout i r Hr). do 2 f_equal. lia.
Qed.

Lemma valid_angle_multiple angle :
  angle ∈ [90; 180; 270] → angle mod 90 = 0.
Proof.
  rewrite !elem_of_cons, elem_of_nil. intros [->|[->|[->|[]]]]; reflexivity.
Qed.

Lemma rotate_pdf_pages file angle_field pages src targets :
  Form 90 angle_field ∈ [90; 180; 270] →
  is_pdf_name (filename file) = true →
  read_pdf file = Ok src →
  rotate_targets pages (Z.of_nat (length src)) = Ok targets →
  ∃ out,
    rotate_pdf file angle_field pages
      = Ok (pdf_response (PdfBytes out) "rotated.pdf")
    ∧ length out = length src
    ∧ ∀ (i : nat) p, src !! i = Some p →
        out !! i
        = Some (rotated_page (Form 90 angle_field) targets (Z.of_nat i) p).
Proof.
  intros Hangle Hname Hread Htargets. unfold rotate_pdf.
  rewrite bool_decide_eq_true_2 by done. simpl.
  rewrite Hname, Hread. simpl. rewrite Htargets. simpl.
  destruct (rotate_loop (Form 90 angle_field) targets src
              (valid_angle_multiple _ Hangle) 0 [])
    as (out & -> & Hlen & Hout).
  simpl. exists out. split; [done|]. split; [done|].
  intros i p Hp. by rewrite (Hout i p Hp), Z.add_0_l.
Qed.

(** The target set of a rotation is the set of the parsed indices: with an
    absent or empty expression the parser returns every index itself. *)
Lemma rotate_targets_parse pages total :
  rotate_targets pages total
  = (indices ← _parse_pages pages total ; Ok (list_to_set indices)).
Proof. by destruct pages as [[|c pages]|]. Qed.

Lemma elem_of_rotate_targets pages total targets i :
  rotate_targets pages total = Ok targets →
  i ∈ targets ↔
    ∃ indices, _parse_pages pages total = Ok indices ∧ i ∈ indices.
Proof.
  rewrite rotate_targets_parse.
  destruct (_parse_pages pages total) as [indices|e]; [|discriminate].
  simpl. intros Heq. injection Heq as <-. rewrite elem_of_list_to_set.
  split.
  - intros Hi. exists indices. by split.
  - intros (l & Hl & Hi). by injection Hl as ->.
Qed.

(** C6: for an angle of 90, 180 or 270 the rotated document has as many
    pages as the source, in the same order; a page whose index is in the
    target set has the angle added to its rotation, so that its orientation
    is the former one plus the angle modulo 360, and a page outside the
    target set is the source page unchanged; four quarter turns of a page
    give back its orientation. *)
Theorem rotate_keeps_order_and_turns_targets :
  (∀ file angle pages src targets,
     angle ∈ [90; 180; 270] →
     is_pdf_name (filename file) = true →
     read_pdf file = Ok src →
     rotate_targets pages (Z.of_nat (length src)) = Ok targets →
     ∃ out,
       rotate_pdf file (Some angle) pages
         = Ok (pdf_response (PdfBytes out) "rotated.pdf")
       ∧ length out = length src
       ∧ (∀ i, i ∈ targets ↔
            ∃ indices,
              _parse_pages pages (Z.of_nat (length src)) = Ok indices
              ∧ i ∈ indices)
       ∧ ∀ (i : nat) p, src !! i = Some p →
           ∃ q, out !! i = Some q
             ∧ page_id q = page_id p ∧ images q = images p
             ∧ (Z.of_nat i ∈ targets →
                  rotation q = rotation p + angle
                  ∧ orientation q = (orientation p + angle) mod 360)
             ∧ (Z.of_nat i ∉ targets → q = p))
  ∧ (∀ p, ∃ q,
       four_quarter_turns p = Ok q
       ∧ orientation q = orientation p
       ∧ page_id q = page_id p ∧ images q = images p).
Proof.
  split.
  - intros file angle pages src targets Hangle Hname Hread Htargets.
    destruct (rotate_pdf_pages file (Some angle) pages src targets)
      as (out & Hrot & Hlen & Hout); [done..|].
    exists out. split; [done|]. split; [done|].
    split; [intros i; by apply elem_of_rotate_targets|].
    intros i p Hp. exists (rotated_page angle targets (Z.of_nat i) p).
    split; [by apply Hout|]. unfold rotated_page.
    destruct (bool_decide_reflect (Z.of_nat i ∈ targets)) as [Hin|Hout'].
    + split; [done|]. split; [done|]. split; [|done].
      intros _. split; [done|]. apply orientation_turned.
    + done.
  - intros p. eexists. split; [reflexivity|]. split; [|done].
    unfold orientation. simpl.
    replace (rotation p + 90 + 90 + 90 + 90) with (rotation p + 1 * 360)
      by lia.
    apply Z_mod_plus_full.
Qed.

Lemma rotate_keeps_order_and_turns_targets_witness :
  ∃ out,
    rotate_pdf (pdf_upload "doc.pdf" [page 1 0; page 2 270; page 3 0])
      (Some 180) (Some "2-3")
    = Ok (pdf_response (PdfBytes out) "rotated.pdf")
    ∧ length out = length [page 1 0; page 2 270; page 3 0]
    ∧ (∀ i, i ∈ ({[1; 2]} : gset Z) ↔
         ∃ indices,
           _parse_pages (Some "2-3")
             (Z.of_nat (length [page 1 0; page 2 270; page 3 0]))
           = Ok indices
           ∧ i ∈ indices)
    ∧ ∀ (i : nat) p, [page 1 0; page 2 270; page 3 0] !! i = Some p →
        ∃ q, out !! i = Some q
          ∧ page_id q = page_id p ∧ images q = images p
          ∧ (Z.of_nat i ∈ ({[1; 2]} : gset Z) →
               rotation q = rotation p + 180
               ∧ orientation q = (orientation p + 180) mod 360)
          ∧ (Z.of_nat i ∉ ({[1; 2]} : gset Z) → q = p).
Proof.
  apply (proj1 rotate_keeps_order_and_turns_targets
           (pdf_upload "doc.pdf" [page 1 0; page 2 270; page 3 0])
           180 (Some "2-3")).
  - set_solver.
  - vm_compute. reflexivity.
  - reflexivity.
  - vm_compute. reflexivity.
Defined.

Lemma rotate_targets_raises pages total e :
  rotate_targets pages total = Raise e →
  e = no_valid_pages ∨ e = ValueError.
Proof.
  rewrite rotate_targets_parse.
  destruct (_parse_pages pages total) as [indices|e'] eqn:Hparse;
    [discriminate|].
  simpl. intros Heq. injection Heq as <-.
  by apply (parse_pages_raises pages total).
Qed.

(** C10: a rotation request without the angle field passes the check of
    the angle: it is handled as the request with angle 90, it never fails
    with the error of the angle check, and every targeted page comes out
    turned by 90 degrees. *)
Theorem rotate_without_angle_turns_by_90 :
  (∀ file pages, rotate_pdf file None pages = rotate_pdf file (Some 90) pages)
  ∧ (∀ file pages src,
       read_pdf file = Ok src →
       rotate_pdf file None pages ≠ Raise angle_error)
  ∧ (∀ file pages src targets,
       is_pdf_name (filename file) = true →
       read_pdf file = Ok src →
       rotate_targets pages (Z.of_nat (length src)) = Ok targets →
       ∃ out,
         rotate_pdf file None pages
           = Ok (pdf_response (PdfBytes out) "rotated.pdf")
         ∧ length out = length src
         ∧ ∀ (i : nat) p, src !! i = Some p → Z.of_nat i ∈ targets →
             out !! i = Some (turned 90 p)
             ∧ orientation (turned 90 p) = (orientation p + 90) mod 360).
Proof.
  split; [done|]. split.
  - intros file pages src Hread. unfold rotate_pdf.
    rewrite bool_decide_eq_true_2 by (simpl; set_solver). simpl.
    destruct (is_pdf_name (filename file)); simpl; [|discriminate].
    rewrite Hread. simpl.
    destruct (rotate_targets pages (Z.of_nat (length src)))
      as [targets|e] eqn:Htargets; simpl.
    + destruct (rotate_loop 90 targets src eq_refl 0 [])
        as (out & -> & _). discriminate.
    + apply rotate_targets_raises in Htargets as [->| ->]; discriminate.
  - intros file pages src targets Hname Hread Htargets.
    destruct (rotate_pdf_pages file None pages src targets)
      as (out & Hrot & Hlen & Hout); [simpl; set_solver|done..|].
    exists out. split; [done|]. split; [done|].
    intros i p Hp Hi. rewrite (Hout i p Hp). unfold rotated_page.
    rewrite bool_decide_eq_true_2 by done.
    split; [done|]. apply orientation_turned.
Qed.

Lemma rotate_without_angle_turns_by_90_witness :
  rotate_pdf (pdf_upload "doc.pdf" [page 1 0; page 2 270]) None (Some "2")
    ≠ Raise angle_error
  ∧ ∃ out,
      rotate_pdf (pdf_upload "doc.pdf" [page 1 0; page 2 270]) None (Some "2")
        = Ok (pdf_response (PdfBytes out) "rotated.pdf")
      ∧ length out = length [page 1 0; page 2 270]
      ∧ ∀ (i : nat) p, [page 1 0; page 2 270] !! i = Some p →
          Z.of_nat i ∈ ({[1]} : gset Z) →
          out !! i = Some (turned 90 p)
          ∧ orientation (turned 90 p) = (orientation p + 90) mod 360.
Proof.
  split.
  - apply (proj1 (proj2 rotate_without_angle_turns_by_90)
             (pdf_upload "doc.pdf" [page 1 0; page 2 270]) (Some "2")
             [page 1 0; page 2 270]).
    reflexivity.
  - apply (proj2 (proj2 rotate_without_angle_turns_by_90)
             (pdf_upload "doc.pdf" [page 1 0; page 2 270]) (Some "2")).
    + vm_compute. reflexivity.
    + reflexivity.
    + vm_compute. reflexivity.
Defined.

(** ** Compress *)

Lemma compress_pdf_pages file src :
  is_pdf_name (filename file) = true →
  read_pdf file = Ok src →
  compress_pdf file = Ok (pdf_response (PdfBytes src) "compressed.pdf").
Proof.
  intros Hname Hread. unfold compress_pdf. rewrite Hname, Hread. simpl.
  by rewrite foldl_add_page.
Qed.

(** C9: compress writes the pages of the source as they are, in their
    order, through a writer built and used exactly as the one of a split
    over the whole document: its answer is the answer of that split under
    another file name, and nothing is set on the writer to share structure
    or to optimise streams. *)
Theorem compress_is_full_range_split (file : UploadFile) :
  compress_pdf file = renamed "compressed.pdf" (split_pdf file None).
Proof.
  destruct (is_pdf_name (filename file)) eqn:Hname.
  - destruct (read_pdf file) as [src|e] eqn:Hread.
    + by rewrite (compress_pdf_pages file src),
        (split_pdf_full_range file src).
    + unfold compress_pdf, split_pdf. by rewrite Hname, Hread.
  - unfold compress_pdf, split_pdf. by rewrite Hname.
Qed.

(** ** Merge *)

Lemma merge_pdfs_few files :
  (length files < 2)%nat →
  merge_pdfs files
  = Raise (HTTPException 400 "Upload at least two PDF files to merge").
Proof.
  intros Hlen. unfold merge_pdfs.
  destruct files as [|f [|g files]]; simpl in *; [done..|lia].
Qed.

(** With two files or more, merge answers 500 whenever it fails. *)
Lemma merge_pdfs_failure_status files e :
  (2 ≤ length files)%nat →
  merge_pdfs files = Raise e →
  ∃ cause, e = HTTPException 500 (str_exn cause).
Proof.
  intros Hlen. unfold merge_pdfs.
  destruct files as [|f [|g files]]; simpl in Hlen; [lia..|].
  cbn [orb Nat.ltb Nat.leb length].
  destruct (for_each merge_file [] (f :: g :: files)) as [writer|cause];
    simpl; [discriminate|].
  intros Heq. injection Heq as <-. eauto.
Qed.

(** C4: two uploads of which the second is not named as a PDF: the
    check of the extension raises its 400 inside the handler's [try], and the
    handler answers 500. *)
Theorem merge_wrong_extension_answers_500 :
  merge_pdfs [pdf_upload "a.pdf" [page 1 0]; pdf_upload "b.txt" [page 2 0]]
  = Raise (HTTPException 500 "400: b.txt is not a PDF")
  ∧ status_of
      (merge_pdfs [pdf_upload "a.pdf" [page 1 0];
                   pdf_upload "b.txt" [page 2 0]]) = 500
  ∧ status_of (merge_pdfs [pdf_upload "a.pdf" [page 1 0]]) = 400.
Proof. repeat split; vm_compute; reflexivity. Qed.

(** ** Images to PDF *)

Lemma close_loop (ims : list PILImage) :
  ∀ σ,
  Conv.for_in ims (λ im, Conv.try_except (Conv.close im) (Conv.ret ())) σ
  = (Ok (),
     {| pil_images := pil_images σ;
        next_handle := next_handle σ;
        open_handles := open_handles σ ∖ list_to_set (handle <$> ims) |}).
Proof.
  induction ims as [|im ims IH]; intros σ.
  - simpl. unfold Conv.ret. destruct σ as [pil next opened]; simpl.
    do 2 f_equal. set_solver.
  - simpl. unfold Conv.bind, Conv.try_except, Conv.close at 1.
    rewrite IH. simpl. do 2 f_equal. set_solver.
Qed.

Lemma close_all_run σ :
  close_all σ
  = (Ok (),
     {| pil_images := pil_images σ;
        next_handle := next_handle σ;
        open_handles :=
          open_handles σ ∖ list_to_set (handle <$> pil_images σ) |}).
Proof.
  unfold close_all, Conv.bind, Conv.get_pil_images. apply close_loop.
Qed.

Lemma close_all_released σ : released (snd (close_all σ)).
Proof.
  rewrite close_all_run. unfold released. simpl. intros im Him.
  assert (handle im ∈ handle <$> pil_images σ)
    by (by apply list_elem_of_fmap_2).
  set_solver.
Qed.

Lemma decode_image_ok img σ :
  decodes img = true →
  ∃ σ', decode_image img σ = (Ok (), σ')
    ∧ length (pil_images σ') = S (length (pil_images σ)).
Proof.
  unfold decodes, decode_image, Conv.bind.
  destruct (read_image img) as [| |enc]; try discriminate. intros _.
  simpl. eexists. split; [reflexivity|]. simpl. rewrite length_app.
  simpl. lia.
Qed.

Lemma decode_image_raises img σ :
  decodes img = false → ∃ e σ', decode_image img σ = (Raise e, σ').
Proof.
  unfold decodes, decode_image, Conv.bind.
  destruct (read_image img) as [| |enc]; try discriminate; intros _;
    simpl; eauto.
Qed.

(** The decoding loop either decodes every upload, or stops at the first
    that is no image. *)
Lemma decode_loop images :
  ∀ σ,
  if forallb decodes images then
    ∃ σ', Conv.for_in images decode_image σ = (Ok (), σ')
      ∧ length (pil_images σ') = (length (pil_images σ) + length images)%nat
  else
    ∃ e σ', Conv.for_in images decode_image σ = (Raise e, σ').
Proof.
  induction images as [|img images IH]; intros σ; simpl.
  - eexists. split; [reflexivity|]. lia.
  - unfold Conv.bind. destruct (decodes img) eqn:Himg; simpl.
    + destruct (decode_image_ok img σ Himg) as (σ1 & -> & Hlen1).
      specialize (IH σ1). destruct (forallb decodes images).
      * destruct IH as (σ' & -> & Hlen). exists σ'. split; [done|]. lia.
      * destruct IH as (e & σ' & ->). eauto.
    + destruct (decode_image_raises img σ Himg) as (e & σ1 & ->). eauto.
Qed.

(** A decode failure anywhere aborts with the 400 of the handler, every
    image decoded before it being closed. *)
Lemma images_to_pdf_decode_failure images page_size σ :
  forallb decodes images = false →
  ∃ σ', images_to_pdf images page_size σ = (Raise invalid_images, σ')
    ∧ released σ'.
Proof.
  intros Hdec. pose proof (decode_loop images σ) as Hloop.
  rewrite Hdec in Hloop. destruct Hloop as (e & σ1 & Hrun).
  destruct images as [|img images]; [discriminate|].
  unfold images_to_pdf, Conv.bind at 1, Conv.try_except. rewrite Hrun.
  unfold Conv.bind. pose proof (close_all_released σ1) as Hrel.
  destruct (close_all σ1) as [[[]|e'] σ2] eqn:Hclose.
  - exists σ2. split; [done|]. exact Hrel.
  - by rewrite close_all_run in Hclose.
Qed.

(** When every image decodes and the encoder accepts them all, the
    handler answers and every image of [pil_images] is closed. *)
Lemma images_to_pdf_success images page_size σ first rest σ1 :
  images ≠ [] →
  Conv.for_in images decode_image σ = (Ok (), σ1) →
  pil_images σ1 = first :: rest →
  forallb encodable (first :: rest) = true →
  ∃ σ',
    images_to_pdf images page_size σ
    = (Ok (_bytesio_response (ImagesPdfBytes (handle <$> first :: rest))
             "images.pdf" "application/pdf"), σ')
    ∧ released σ'.
Proof.
  intros Hne Hrun Hpil Henc.
  destruct images as [|img images]; [done|].
  unfold images_to_pdf, Conv.bind at 1, Conv.try_except. rewrite Hrun.
  unfold Conv.bind at 1, Conv.get_pil_images. rewrite Hpil.
  unfold Conv.bind at 1, Conv.save. rewrite Henc.
  unfold Conv.ret at 1, Conv.bind.
  pose proof (close_all_released σ1) as Hrel.
  destruct (close_all σ1) as [[[]|e'] σ2] eqn:Hclose.
  - exists σ2. split; [done|]. exact Hrel.
  - by rewrite close_all_run in Hclose.
Qed.

(** When the encoder refuses an image, its exception leaves the handler
    with the state as decoding left it: no image is closed. *)
Lemma images_to_pdf_save_failure images page_size σ first rest σ1 :
  images ≠ [] →
  Conv.for_in images decode_image σ = (Ok (), σ1) →
  pil_images σ1 = first :: rest →
  forallb encodable (first :: rest) = false →
  images_to_pdf images page_size σ
  = (Raise (LibraryError "encoder error when writing image file"), σ1).
Proof.
  intros Hne Hrun Hpil Henc.
  destruct images as [|img images]; [done|].
  unfold images_to_pdf, Conv.bind at 1, Conv.try_except. rewrite Hrun.
  unfold Conv.bind at 1, Conv.get_pil_images. rewrite Hpil.
  unfold Conv.bind at 1, Conv.save. by rewrite Henc.
Qed.

(** C5: one valid image that the PDF encoder refuses: the exception of
    [save] escapes the handler as a 500, and the decoded image, handle 1 of
    [pil_images], is still open when it does; a decode failure, by
    contrast, answers 400 with the images decoded before it closed. *)
Theorem images_to_pdf_save_failure_leaks :
  (∃ σ,
     images_to_pdf [image_upload "wide.png" (Decodes false)] None conv_init
     = (Raise (LibraryError "encoder error when writing image file"), σ)
     ∧ pil_images σ = [{| handle := 1; encodable := false |}]
     ∧ (1%nat ∈ open_handles σ)
     ∧ ¬ released σ)
  ∧ status_of
      (fst (images_to_pdf [image_upload "wide.png" (Decodes false)] None
              conv_init)) = 500
  ∧ (∃ σ,
       images_to_pdf [image_upload "a.png" (Decodes true);
                      image_upload "b.txt" NotAnImage] None conv_init
       = (Raise invalid_images, σ)
       ∧ pil_images σ = [{| handle := 1; encodable := true |}]
       ∧ released σ).
Proof.
  split; [|split].
  - eexists. split; [vm_compute; reflexivity|]. simpl.
    split; [done|]. split; [set_solver|].
    intros Hrel. apply (Hrel {| handle := 1; encodable := false |}).
    + simpl. set_solver.
    + simpl. set_solver.
  - vm_compute. reflexivity.
  - destruct (images_to_pdf_decode_failure
                [image_upload "a.png" (Decodes true);
                 image_upload "b.txt" NotAnImage] None conv_init eq_refl)
      as (σ & Hrun & Hrel).
    exists σ. split; [done|]. split; [|done].
    vm_compute in Hrun. by injection Hrun as <-.
Qed.

(** ** Extract images *)

Lemma zip_nbytes_positive entry_nbytes entries :
  (zip_nbytes entry_nbytes entries =? 0)%nat = false.
Proof. unfold zip_nbytes. apply Nat.eqb_neq. lia. Qed.

(** Whatever the pages hold, extraction answers with the archive. *)
Lemma extract_images_archive entry_nbytes file src :
  is_pdf_name (filename file) = true →
  read_pdf file = Ok src →
  extract_images entry_nbytes file = Ok (zip_response (extracted src)).
Proof.
  intros Hname Hread. unfold extract_images. rewrite Hname, Hread. simpl.
  by rewrite zip_nbytes_positive.
Qed.

Lemma extract_images_never_no_images entry_nbytes file :
  extract_images entry_nbytes file ≠ Ok no_images.
Proof.
  unfold extract_images.
  destruct (is_pdf_name (filename file)); simpl; [|discriminate].
  destruct (read_pdf file) as [src|e]; simpl; [|discriminate].
  rewrite zip_nbytes_positive. discriminate.
Qed.

(** A page whose enumeration raises at its first step leaves the archive
    and the counter as they were, and the loop goes on with the pages after
    it. *)
Lemma extract_pages_skips_failed_enumeration page_idx p e items pages st :
  images p = Raise e :: items →
  extract_pages ((page_idx, p) :: pages) st = extract_pages pages st.
Proof. intros Himg. simpl. by rewrite Himg. Qed.

(** Entries once written stay in the archive. *)
Lemma page_images_keeps_entries page_idx items :
  ∀ st, zf st `prefix_of` zf (snd (page_images page_idx items st)).
Proof.
  induction items as [|[o|e] items IH]; intros st; simpl; [done| |done].
  destruct (image_ext o) as [ext|e]; simpl; [|done].
  etrans; [|apply IH]. simpl. by apply prefix_app_r.
Qed.

Lemma extract_pages_keeps_entries pages :
  ∀ st, zf st `prefix_of` zf (extract_pages pages st).
Proof.
  induction pages as [|[page_idx p] pages IH]; intros st; simpl; [done|].
  etrans; [apply (page_images_keeps_entries page_idx (images p))|apply IH].
Qed.

Lemma page_images_entries page_idx items :
  ∀ st,
  zf (snd (page_images page_idx items st))
  = (zf st ++ named page_idx (img_count st) (readable_prefix items))%list.
Proof.
  induction items as [|[o|e] items IH]; intros st; simpl.
  - by rewrite app_nil_r.
  - destruct (image_ext o) as [ext|e]; simpl.
    + rewrite IH. simpl. by rewrite <- app_assoc.
    + by rewrite app_nil_r.
  - by rewrite app_nil_r.
Qed.

Lemma extract_pages_app pages1 pages2 st :
  extract_pages (pages1 ++ pages2) st
  = extract_pages pages2 (extract_pages pages1 st).
Proof.
  revert st. induction pages1 as [|[i p] pages1 IH]; intros st; simpl;
    [done|apply IH].
Qed.

Lemma enumerate_app {A} (l1 l2 : list A) start :
  enumerate start (l1 ++ l2)
  = (enumerate start l1 ++ enumerate (start + Z.of_nat (length l1)) l2)%list.
Proof.
  revert start. induction l1 as [|x l1 IH]; intros start; simpl.
  - by rewrite Z.add_0_r.
  - rewrite IH. do 3 f_equal. lia.
Qed.

(** Each page, whatever happened on the pages before it, contributes the
    entries of its images read before its first error. *)
Lemma extracted_page_entries pages1 q pages2 :
  ∃ count l1 l2,
    extracted (pages1 ++ q :: pages2)
    = (l1 ++ named (1 + Z.of_nat (length pages1)) count
               (readable_prefix (images q)) ++ l2)%list.
Proof.
  unfold extracted. rewrite enumerate_app, extract_pages_app. simpl.
  set (st1 := extract_pages (enumerate 1 pages1) extract_init).
  set (st2 := snd (page_images (1 + Z.of_nat (length pages1)) (images q) st1)).
  destruct (extract_pages_keeps_entries
              (enumerate (1 + Z.of_nat (length pages1) + 1) pages2) st2)
    as [l2 ->].
  exists (img_count st1), (zf st1), l2. unfold st2.
  by rewrite page_images_entries, <- app_assoc.
Qed.

(** C2: a page whose second image raises while it is read, with a
    third image after it, followed by a page with one image: the inner loop
    ends with the exception, the rest of the page is left out and the page
    after it contributes its image, but the entry written for the first
    image before the error stays in the archive, so the failing page does
    not contribute zero entries. *)
Theorem extract_images_failed_page_keeps_entries entry_nbytes :
  page_images 1
    [Ok (image_file (Some (Some "PNG")) ["a"%byte]);
     Raise (LibraryError "unsupported filter");
     Ok (image_file (Some (Some "GIF")) ["c"%byte])] extract_init
  = (Raise (LibraryError "unsupported filter"),
     {| zf := [("page1_img1.png", ["a"%byte])]; img_count := 1 |})
  ∧ extract_images entry_nbytes
      (pdf_upload "scan.pdf"
         [page_with_images 1
            [Ok (image_file (Some (Some "PNG")) ["a"%byte]);
             Raise (LibraryError "unsupported filter");
             Ok (image_file (Some (Some "GIF")) ["c"%byte])];
          page_with_images 2
            [Ok (image_file (Some (Some "JPEG")) ["b"%byte])]])
    = Ok (zip_response [("page1_img1.png", ["a"%byte]);
                        ("page2_img2.jpeg", ["b"%byte])]).
Proof.
  split; [vm_compute; reflexivity|].
  erewrite extract_images_archive; [|reflexivity..].
  vm_compute. reflexivity.
Qed.

(** C3: a document of one page without images: no entry is recovered,
    and extraction answers with an archive of no entries, not with the
    message that no images were found; nor does it answer with that message
    for any other upload. *)
Theorem extract_images_empty_archive_is_streamed entry_nbytes :
  extract_images entry_nbytes (pdf_upload "text.pdf" [page 1 0])
  = Ok (zip_response [])
  ∧ extract_images entry_nbytes (pdf_upload "text.pdf" [page 1 0])
    ≠ Ok no_images
  ∧ ∀ file, extract_images entry_nbytes file ≠ Ok no_images.
Proof.
  split; [|split].
  - erewrite extract_images_archive; [|reflexivity..]. reflexivity.
  - apply extract_images_never_no_images.
  - intros file. apply extract_images_never_no_images.
Qed.

(** ** More on the page-range parser *)

Lemma parse_part_selects total_pages selected part selected' :
  parse_part total_pages selected part = Ok selected' →
  ∀ i, i ∈ selected' ↔ i ∈ selected ∨ selects total_pages part i.
Proof.
  unfold parse_part, selects. intros Hpart i.
  destruct (String.eqb_spec (Str.strip part) "") as [Hblank|Hblank].
  { simplify_eq. split; [by left|]. by intros [?|[? _]]. }
  destruct (Str.contains "-" (Str.strip part)).
  - destruct (Str.split1 "-" (Str.strip part)) as [|a [|b [|? ?]]];
      try discriminate.
    destruct (Str.int a) as [ia|] eqn:Ha; [|discriminate].
    destruct (Str.int b) as [ib|] eqn:Hb; [|discriminate].
    simpl in Hpart. simplify_eq.
    rewrite elem_of_union, elem_of_list_to_set, elem_of_py_range.
    split.
    + intros [?|?]; [by left|]. right. split; [done|].
      exists a, b, ia, ib. repeat split; (done || lia).
    + intros [?|[_ (a' & b' & ia' & ib' & Hab & Ha' & Hb' & Hi)]];
        [by left|].
      injection Hab as <- <-. rewrite Ha in Ha'. rewrite Hb in Hb'.
      injection Ha' as <-. injection Hb' as <-. right. lia.
  - destruct (Str.int (Str.strip part)) as [idx|] eqn:Hidx; [|discriminate].
    simpl in Hpart.
    destruct (1 <=? idx) eqn:H1, (idx <=? total_pages) eqn:H2;
      simpl in Hpart; simplify_eq.
    + rewrite elem_of_union, elem_of_singleton. split.
      * intros [?| ->]; [by left|]. right. split; [done|].
        exists idx. repeat split; (done || lia).
      * intros [?|[_ (n & Hn & Hrange & ->)]]; [by left|].
        simplify_eq. by right.
    + split; [by left|].
      intros [?|[_ (n & Hn & Hrange & ->)]]; [done|]. simplify_eq. lia.
    + split; [by left|].
      intros [?|[_ (n & Hn & Hrange & ->)]]; [done|]. simplify_eq. lia.
    + split; [by left|].
      intros [?|[_ (n & Hn & Hrange & ->)]]; [done|]. simplify_eq. lia.
Qed.

Lemma for_each_selects total_pages parts :
  ∀ selected selected',
  for_each (parse_part total_pages) selected parts = Ok selected' →
  ∀ i, i ∈ selected' ↔
    i ∈ selected ∨ ∃ part, part ∈ parts ∧ selects total_pages part i.
Proof.
  induction parts as [|part parts IH]; intros selected selected' Hrun i.
  - simpl in Hrun. simplify_eq. split; [by left|].
    intros [?|(part & Hin & _)]; [done|]. by apply elem_of_nil in Hin.
  - simpl in Hrun.
    destruct (parse_part total_pages selected part) as [selected1|] eqn:Hpart;
      [|discriminate].
    simpl in Hrun. rewrite (IH _ _ Hrun i).
    rewrite (parse_part_selects _ _ _ _ Hpart i). split.
    + intros [[?|?]|(p & Hin & Hsel)]; [by left| |].
      * right. exists part. split; [apply elem_of_cons; by left|done].
      * right. exists p. split; [apply elem_of_cons; by right|done].
    + intros [?|(p & Hin & Hsel)]; [by left; left|].
      apply elem_of_cons in Hin as [->|Hin]; [by left; right|].
      right. by exists p.
Qed.

(** X1: for a non-empty expression the parser accepts, an index is in
    the list it returns exactly when one of the comma-separated parts
    selects it. *)
Theorem parse_pages_selects_exactly pages total_pages ordered :
  pages ≠ "" →
  _parse_pages (Some pages) total_pages = Ok ordered →
  ∀ i, i ∈ ordered ↔
    ∃ part, part ∈ Str.split "," pages ∧ selects total_pages part i.
Proof.
  intros Hne Hparse i.
  apply parse_pages_selected in Hparse as (selected & Hrun & -> & _);
    [|done].
  rewrite elem_of_sorted, (for_each_selects _ _ _ _ Hrun i).
  split; [|by right]. intros [Hin|?]; [|done]. by apply elem_of_empty in Hin.
Qed.

Lemma forallb_elem_of {A} (f : A → bool) (l : list A) :
  forallb f l = true ↔ ∀ x, x ∈ l → f x = true.
Proof.
  rewrite forallb_forall. split; intros H x Hx; apply H;
    by apply list_elem_of_In.
Qed.

Lemma forallb_same_elements {A} (f : A → bool) (l1 l2 : list A) :
  (∀ x, x ∈ l1 ↔ x ∈ l2) → forallb f l1 = forallb f l2.
Proof.
  intros Hsame. apply eq_true_iff_eq. rewrite !forallb_elem_of.
  split; intros H x Hx; apply H; by apply Hsame.
Qed.

(** X2: the outcome of the parser, error or list, depends only on which
    parts the expression holds, not on their order nor on how often each
    occurs. *)
Theorem parse_pages_order_irrelevant pages1 pages2 total_pages :
  pages1 ≠ "" → pages2 ≠ "" →
  (∀ part, part ∈ Str.split "," pages1 ↔ part ∈ Str.split "," pages2) →
  _parse_pages (Some pages1) total_pages
  = _parse_pages (Some pages2) total_pages.
Proof.
  intros Hne1 Hne2 Hsame.
  pose proof (forallb_same_elements well_formed_part _ _ Hsame) as Hwf.
  destruct (forallb well_formed_part (Str.split "," pages1)) eqn:Hwf1.
  - symmetry in Hwf.
    destruct (for_each_well_formed total_pages _ ∅ Hwf1) as [sel1 Hrun1].
    destruct (for_each_well_formed total_pages _ ∅ Hwf) as [sel2 Hrun2].
    rewrite (parse_pages_of_selected _ _ sel1), (parse_pages_of_selected _ _ sel2)
      by done.
    assert (sel1 = sel2) as ->; [|done].
    apply set_eq. intros i.
    rewrite (for_each_selects _ _ _ _ Hrun1 i),
      (for_each_selects _ _ _ _ Hrun2 i).
    split; (intros [?|(p & Hin & Hsel)]; [by left|]; right; exists p;
            split; [by apply Hsame|done]).
  - symmetry in Hwf.
    destruct pages1 as [|c1 pages1]; [done|].
    destruct pages2 as [|c2 pages2]; [done|].
    unfold _parse_pages.
    by rewrite (for_each_malformed total_pages _ ∅ Hwf1),
      (for_each_malformed total_pages _ ∅ Hwf).
Qed.

Lemma parse_pages_order_irrelevant_witness :
  _parse_pages (Some "5,1-2") 6 = _parse_pages (Some "1-2,5,5") 6.
Proof.
  apply (parse_pages_order_irrelevant "5,1-2" "1-2,5,5" 6).
  - discriminate.
  - discriminate.
  - intros part. vm_compute Str.split.
    rewrite !elem_of_cons, !elem_of_nil. tauto.
Defined.

Lemma parse_pages_selects_exactly_witness :
  4 ∈ [0; 1; 4] ↔
    ∃ part, part ∈ Str.split "," "5,1-2" ∧ selects 6 part 4.
Proof.
  apply (parse_pages_selects_exactly "5,1-2" 6 [0; 1; 4]).
  - discriminate.
  - vm_compute. reflexivity.
Defined.

Lemma for_each_blank total_pages parts :
  ∀ selected,
  Forall (λ part, Str.strip part = "") parts →
  for_each (parse_part total_pages) selected parts = Ok selected.
Proof.
  induction parts as [|part parts IH]; intros selected Hall; [done|].
  apply Forall_cons in Hall as [Hpart Hall].
  assert (Hstep : parse_part total_pages selected part = Ok selected).
  { unfold parse_part. cbv zeta. by rewrite Hpart. }
  simpl. rewrite Hstep. simpl. by apply IH.
Qed.

(** X3: a non-empty expression made of blanks and commas only is
    refused with the error of an empty selection; it does not select every
    page as the empty expression does. *)
Theorem parse_pages_blank_expression pages total_pages :
  pages ≠ "" →
  Forall (λ part, Str.strip part = "") (Str.split "," pages) →
  _parse_pages (Some pages) total_pages = Raise no_valid_pages.
Proof.
  intros Hne Hblank.
  rewrite (parse_pages_of_selected pages total_pages ∅);
    [by rewrite decide_True|done|by apply for_each_blank].
Qed.

Lemma parse_pages_blank_expression_witness :
  _parse_pages (Some " , ,") 8 = Raise no_valid_pages.
Proof.
  apply (parse_pages_blank_expression " , ," 8).
  - discriminate.
  - vm_compute Str.split. repeat constructor.
Defined.

(** X4: the parser returns the empty list only for an absent or empty
    expression against a document without pages. *)
Theorem parse_pages_empty_result pages total_pages :
  _parse_pages pages total_pages = Ok [] →
  truthy pages = false ∧ total_pages ≤ 0.
Proof.
  intros Hparse.
  assert (Hrange : py_range 0 total_pages = [] → total_pages ≤ 0).
  { intros Hnil. apply (f_equal length) in Hnil.
    unfold py_range in Hnil. rewrite length_seqZ in Hnil. simpl in Hnil. lia. }
  destruct pages as [[|c pages]|]; simpl in *.
  - split; [done|]. apply Hrange. congruence.
  - apply (parse_pages_selected (String c pages)) in Hparse
      as (selected & _ & Hnil & Hne); [|done].
    symmetry in Hnil. by apply sorted_nil in Hnil.
  - split; [done|]. apply Hrange. congruence.
Qed.

Lemma parse_pages_empty_result_witness :
  truthy None = false ∧ 0 ≤ 0.
Proof. apply (parse_pages_empty_result None 0). reflexivity. Defined.

(** ** More on merge *)

Lemma merge_file_ok writer f writer' :
  merge_file writer f = Ok writer' ↔
    is_pdf_name (filename f) = true
    ∧ ∃ d, read_pdf f = Ok d ∧ writer' = (writer ++ d)%list.
Proof.
  unfold merge_file. destruct (is_pdf_name (filename f)); simpl.
  - destruct (read_pdf f) as [d|e]; simpl.
    + rewrite foldl_add_page. split.
      * intros ?; simplify_eq. eauto.
      * intros (_ & d' & ? & ->). by simplify_eq.
    + split; [discriminate|]. intros (_ & d' & ? & _). discriminate.
  - split; [discriminate|]. intros [? _]. discriminate.
Qed.

Lemma merge_loop files :
  ∀ writer writer',
  for_each merge_file writer files = Ok writer' ↔
    Forall (λ f, is_pdf_name (filename f) = true) files
    ∧ ∃ docs, Forall2 (λ f d, read_pdf f = Ok d) files docs
        ∧ writer' = (writer ++ concat docs)%list.
Proof.
  induction files as [|f files IH]; intros writer writer'; simpl.
  - split.
    + intros ?; simplify_eq. split; [constructor|].
      exists []. split; [constructor|]. simpl. by rewrite app_nil_r.
    + intros (_ & docs & Hdocs & ->). apply Forall2_nil_inv_l in Hdocs as ->.
      simpl. by rewrite app_nil_r.
  - destruct (merge_file writer f) as [writer1|e] eqn:Hf; simpl.
    + apply merge_file_ok in Hf as (Hname & d & Hd & ->).
      rewrite IH. split.
      * intros (Hnames & docs & Hdocs & ->). split; [by constructor|].
        exists (d :: docs). split; [by constructor|].
        simpl. by rewrite app_assoc.
      * intros (Hnames & docs & Hdocs & ->).
        apply Forall_cons in Hnames as [_ Hnames].
        apply Forall2_cons_inv_l in Hdocs as (d' & docs' & Hd' & Hdocs & ->).
        split; [done|]. exists docs'. split; [done|].
        simpl. rewrite app_assoc. congruence.
    + split; [discriminate|].
      intros (Hnames & docs & Hdocs & _).
      apply Forall_cons in Hnames as [Hname _].
      apply Forall2_cons_inv_l in Hdocs as (d' & docs' & Hd' & _).
      assert (merge_file writer f = Ok (writer ++ d')%list) as Hok
        by (apply merge_file_ok; eauto).
      congruence.
Qed.

Lemma merge_pdfs_ok_iff files r :
  merge_pdfs files = Ok r ↔
    (2 ≤ length files)%nat
    ∧ Forall (λ f, is_pdf_name (filename f) = true) files
    ∧ ∃ docs, Forall2 (λ f d, read_pdf f = Ok d) files docs
        ∧ r = pdf_response (PdfBytes (concat docs)) "merged.pdf".
Proof.
  destruct (decide (length files < 2)%nat) as [Hfew|Hmany].
  { rewrite merge_pdfs_few by done. split; [discriminate|]. lia. }
  unfold merge_pdfs.
  destruct files as [|f [|g files]]; simpl in Hmany; [lia..|].
  cbn [orb Nat.ltb Nat.leb length].
  destruct (for_each merge_file [] (f :: g :: files)) as [writer|e] eqn:Hrun.
  - apply merge_loop in Hrun as (Hnames & docs & Hdocs & ->). simpl. split.
    + intros ?; simplify_eq. split; [lia|]. split; [done|]. by exists docs.
    + intros (_ & _ & docs' & Hdocs' & ->). do 4 f_equal.
      clear -Hdocs Hdocs'. revert docs' Hdocs'.
      induction Hdocs as [|h d l docs Hd _ IH]; intros docs' Hdocs'.
      * by apply Forall2_nil_inv_l in Hdocs' as ->.
      * apply Forall2_cons_inv_l in Hdocs' as (d' & docs'' & Hd' & Hdocs' & ->).
        f_equal; [congruence|by apply IH].
  - simpl. split; [discriminate|].
    intros (_ & Hnames & docs & Hdocs & _).
    assert (for_each merge_file [] (f :: g :: files)
            = Ok ([] ++ concat docs)%list) as Hok
      by (apply merge_loop; eauto).
    congruence.
Qed.

(** X5: merge answers with a document exactly when it is given two
    uploads or more, each named as a PDF and each decoding; the document then
    holds the pages of the uploads one document after the other, in the
    order of submission, under the name [merged.pdf]. *)
Theorem merge_pdfs_concatenates files r :
  merge_pdfs files = Ok r ↔
    (2 ≤ length files)%nat
    ∧ Forall (λ f, is_pdf_name (filename f) = true) files
    ∧ ∃ docs, Forall2 (λ f d, read_pdf f = Ok d) files docs
        ∧ r = pdf_response (PdfBytes (concat docs)) "merged.pdf".
Proof. apply merge_pdfs_ok_iff. Qed.

Lemma merge_pdfs_concatenates_witness :
  merge_pdfs [pdf_upload "a.pdf" [page 1 0; page 2 0];
              pdf_upload "b.PDF" [page 3 90]]
  = Ok (pdf_response (PdfBytes (concat [[page 1 0; page 2 0]; [page 3 90]]))
          "merged.pdf").
Proof.
  apply (proj2 (merge_pdfs_concatenates
                  [pdf_upload "a.pdf" [page 1 0; page 2 0];
                   pdf_upload "b.PDF" [page 3 90]] _)).
  split; [simpl; lia|]. split.
  - repeat constructor.
  - exists [[page 1 0; page 2 0]; [page 3 90]]. split; [|reflexivity].
    repeat constructor.
Defined.

(** X6: merge answers 400 exactly when it is given fewer than two
    uploads; given two or more it answers 200 or 500, whatever goes
    wrong. *)
Theorem merge_pdfs_status files :
  (status_of (merge_pdfs files) = 400 ↔ (length files < 2)%nat)
  ∧ ((2 ≤ length files)%nat →
     status_of (merge_pdfs files) = 200 ∨ status_of (merge_pdfs files) = 500).
Proof.
  assert (Hmany : (2 ≤ length files)%nat →
    status_of (merge_pdfs files) = 200 ∨ status_of (merge_pdfs files) = 500).
  { intros Hlen. destruct (merge_pdfs files) as [r|e] eqn:Hmerge; [by left|].
    apply merge_pdfs_failure_status in Hmerge as [cause ->]; [|done].
    by right. }
  split; [|done]. split.
  - intros Hstatus. destruct (decide (length files < 2)%nat); [done|].
    destruct Hmany as [H|H]; [lia|..]; rewrite H in Hstatus; discriminate.
  - intros Hfew. by rewrite merge_pdfs_few.
Qed.

Lemma merge_pdfs_status_witness :
  status_of (merge_pdfs [pdf_upload "only.pdf" [page 1 0]]) = 400
  ∧ (status_of (merge_pdfs [pdf_upload "a.pdf" []; pdf_upload "b.doc" []]) = 200
     ∨ status_of (merge_pdfs [pdf_upload "a.pdf" []; pdf_upload "b.doc" []])
       = 500).
Proof.
  split.
  - apply (proj2 (proj1 (merge_pdfs_status [pdf_upload "only.pdf" [page 1 0]]))).
    simpl. lia.
  - apply (proj2 (merge_pdfs_status
                    [pdf_upload "a.pdf" []; pdf_upload "b.doc" []])).
    simpl. lia.
Defined.

(** X7: merging is associative on page sequences: when the answer of a
    merge is uploaded again, unchanged, with one more document, the pages
    are those of merging all the documents at once. *)
Theorem merge_pdfs_associative files out more name :
  merge_pdfs files = Ok (pdf_response (PdfBytes out) "merged.pdf") →
  is_pdf_name name = true →
  merge_pdfs [pdf_upload name out; more] = merge_pdfs (files ++ [more]).
Proof.
  intros Hmerge Hname.
  apply merge_pdfs_ok_iff in Hmerge as (Hlen & Hnames & docs & Hdocs & Heq).
  injection Heq as ->.
  assert (Hlen' : (2 ≤ length (files ++ [more])%list)%nat)
    by (rewrite length_app; simpl; lia).
  unfold merge_pdfs.
  destruct (files ++ [more])%list as [|f1 [|f2 rest]] eqn:Happ;
    simpl in Hlen'; [lia..|].
  cbn [orb Nat.ltb Nat.leb length]. rewrite <- Happ. clear Hlen' Happ.
  assert (Hleft : for_each merge_file [] [pdf_upload name (concat docs); more]
                  = merge_file (concat docs) more).
  { assert (Hfirst : merge_file [] (pdf_upload name (concat docs))
                     = Ok ([] ++ concat docs)%list)
      by (apply merge_file_ok; eauto).
    change (for_each merge_file [] [pdf_upload name (concat docs); more])
      with (w1 ← merge_file [] (pdf_upload name (concat docs)) ;
            w2 ← merge_file w1 more ; Ok w2).
    rewrite Hfirst. simpl. by destruct (merge_file _ more). }
  assert (Hright : for_each merge_file [] (files ++ [more])
                   = merge_file (concat docs) more).
  { assert (Hpre : for_each merge_file [] files = Ok ([] ++ concat docs)%list)
      by (apply merge_loop; eauto).
    clear -Hpre. simpl in Hpre. revert Hpre. generalize (@nil PageObject).
    induction files as [|f files IH]; intros writer Hpre; simpl in *.
    - simplify_eq. by destruct (merge_file _ more).
    - destruct (merge_file writer f); [|discriminate]. simpl in *. by apply IH. }
  by rewrite Hleft, Hright.
Qed.

Lemma merge_pdfs_associative_witness :
  merge_pdfs [pdf_upload "ab.pdf" [page 1 0; page 2 0];
              pdf_upload "c.pdf" [page 3 0]]
  = merge_pdfs ([pdf_upload "a.pdf" [page 1 0]; pdf_upload "b.pdf" [page 2 0]]
                ++ [pdf_upload "c.pdf" [page 3 0]]).
Proof.
  apply (merge_pdfs_associative
           [pdf_upload "a.pdf" [page 1 0]; pdf_upload "b.pdf" [page 2 0]]
           [page 1 0; page 2 0] (pdf_upload "c.pdf" [page 3 0]) "ab.pdf").
  - vm_compute. reflexivity.
  - vm_compute. reflexivity.
Defined.

(** ** More on split *)

Lemma split_pdf_inv file pages src out name :
  read_pdf file = Ok src →
  split_pdf file pages = Ok (pdf_response (PdfBytes out) name) →
  ∃ indices,
    _parse_pages pages (Z.of_nat (length src)) = Ok indices
    ∧ pages_at src indices out.
Proof.
  intros Hread Hsplit.
  destruct (is_pdf_name (filename file)) eqn:Hname.
  - destruct (_parse_pages pages (Z.of_nat (length src))) as [indices|e]
      eqn:Hparse.
    + destruct (split_pdf_pages file pages src indices)
        as (out' & Hsplit' & Hout); [done..|].
      rewrite Hsplit' in Hsplit. injection Hsplit as <-. by exists indices.
    + unfold split_pdf in Hsplit. rewrite Hname, Hread in Hsplit.
      simpl in Hsplit. rewrite Hparse in Hsplit. discriminate.
  - unfold split_pdf in Hsplit. rewrite Hname in Hsplit. discriminate.
Qed.

(** Pages taken at strictly ascending positions form a subsequence. *)
Lemma pages_at_sublist indices :
  ∀ (k : Z) (src out : list PageObject),
  StronglySorted Z.lt indices →
  Forall (λ i, k ≤ i) indices →
  Forall2 (λ i p, src !! Z.to_nat (i - k) = Some p) indices out →
  out `sublist_of` src.
Proof.
  induction indices as [|i indices IH]; intros k src out Hsorted Hlow Hat.
  - apply Forall2_nil_inv_l in Hat as ->. apply sublist_nil_l.
  - apply Forall2_cons_inv_l in Hat as (p & out' & Hp & Hat & ->).
    apply StronglySorted_inv in Hsorted as [Hsorted Hlt].
    apply Forall_cons in Hlow as [Hi Hlow].
    rewrite <- (take_drop_middle src (Z.to_nat (i - k)) p Hp).
    apply sublist_inserts_l, sublist_skip.
    apply (IH (i + 1)); [done| |].
    + eapply Forall_impl; [exact Hlt|]. simpl. lia.
    + clear -Hat Hlt Hi. induction Hat as [|j q indices out' Hq _ IHat];
        [constructor|].
      apply Forall_cons in Hlt as [Hj Hlt]. constructor; [|by apply IHat].
      rewrite lookup_drop, <- Hq. f_equal. lia.
Qed.

(** X8: the pages split returns are a subsequence of the pages of the
    upload: no page twice, none out of its order, never more than the
    upload has; and for a non-empty expression there is at least one. *)
Theorem split_pdf_subsequence file pages src out name :
  read_pdf file = Ok src →
  split_pdf file pages = Ok (pdf_response (PdfBytes out) name) →
  out `sublist_of` src
  ∧ (length out ≤ length src)%nat
  ∧ (truthy pages = true → out ≠ []).
Proof.
  intros Hread Hsplit.
  destruct (split_pdf_inv file pages src out name Hread Hsplit)
    as (indices & Hparse & Hat).
  destruct (parse_pages_sound _ _ _ Hparse) as (Hsorted & _ & Hrange).
  assert (Hsub : out `sublist_of` src).
  { apply (pages_at_sublist indices 0); [done| |].
    - eapply Forall_impl; [exact Hrange|]. simpl. lia.
    - eapply Forall2_impl; [exact Hat|]. intros i p. by rewrite Z.sub_0_r. }
  split; [done|]. split; [by apply sublist_length|].
  intros Htruthy ->. apply Forall2_nil_inv_r in Hat as ->.
  destruct pages as [[|c pages]|]; try discriminate.
  apply (parse_pages_selected (String c pages)) in Hparse
    as (selected & _ & Hnil & Hne); [|done].
  symmetry in Hnil. by apply sorted_nil in Hnil.
Qed.

Lemma split_pdf_subsequence_witness :
  [page 1 0; page 3 0] `sublist_of` [page 1 0; page 2 0; page 3 0]
  ∧ (length [page 1 0; page 3 0] ≤ length [page 1 0; page 2 0; page 3 0])%nat
  ∧ (truthy (Some "3,1") = true → [page 1 0; page 3 0] ≠ []).
Proof.
  apply (split_pdf_subsequence
           (pdf_upload "doc.pdf" [page 1 0; page 2 0; page 3 0])
           (Some "3,1") _ _ "split.pdf").
  - reflexivity.
  - vm_compute. reflexivity.
Defined.

(** X9: with an absent or an empty page range, split returns the pages
    of the upload as they are, all of them and in their order; for a
    document without pages that is the empty document, not the error of an
    empty selection. *)
Theorem split_pdf_without_range file pages src :
  is_pdf_name (filename file) = true →
  read_pdf file = Ok src →
  truthy pages = false →
  split_pdf file pages = Ok (pdf_response (PdfBytes src) "split.pdf").
Proof.
  intros Hname Hread Hall.
  destruct (split_pdf_pages file pages src (py_range 0 (Z.of_nat (length src))))
    as (out & -> & Hout); [done..| |].
  { by destruct pages as [[|c pages]|]. }
  do 3 f_equal. eapply pages_at_unique; [done|apply pages_at_full_range].
Qed.

Lemma split_pdf_without_range_witness :
  split_pdf (pdf_upload "blank.pdf" []) (Some "")
  = Ok (pdf_response (PdfBytes []) "split.pdf").
Proof.
  apply (split_pdf_without_range (pdf_upload "blank.pdf" []) (Some "") []).
  - vm_compute. reflexivity.
  - reflexivity.
  - reflexivity.
Defined.

(** ** Errors of the parser in the handlers *)

(** X10: split and rotate pass on the exception of the parser as it
    is: a selection that ends up empty answers 400, a malformed part makes
    them answer 500. *)
Theorem parser_errors_in_handlers file angle_field pages src e :
  is_pdf_name (filename file) = true →
  read_pdf file = Ok src →
  Form 90 angle_field ∈ [90; 180; 270] →
  _parse_pages pages (Z.of_nat (length src)) = Raise e →
  split_pdf file pages = Raise e
  ∧ rotate_pdf file angle_field pages = Raise e
  ∧ (e = no_valid_pages ∧ status_of (split_pdf file pages) = 400
     ∨ e = ValueError ∧ status_of (split_pdf file pages) = 500).
Proof.
  intros Hname Hread Hangle Hparse.
  assert (Hsplit : split_pdf file pages = Raise e).
  { unfold split_pdf. rewrite Hname, Hread. simpl. by rewrite Hparse. }
  split; [done|]. split.
  - unfold rotate_pdf. rewrite bool_decide_eq_true_2 by done. simpl.
    rewrite Hname, Hread. simpl.
    by rewrite rotate_targets_parse, Hparse.
  - rewrite Hsplit.
    destruct (parse_pages_raises _ _ _ Hparse) as [-> | ->]; [by left|by right].
Qed.

Lemma parser_errors_in_handlers_witness :
  split_pdf (pdf_upload "doc.pdf" [page 1 0]) (Some "x") = Raise ValueError
  ∧ rotate_pdf (pdf_upload "doc.pdf" [page 1 0]) None (Some "x")
    = Raise ValueError
  ∧ (ValueError = no_valid_pages
     ∧ status_of (split_pdf (pdf_upload "doc.pdf" [page 1 0]) (Some "x")) = 400
     ∨ ValueError = ValueError
       ∧ status_of (split_pdf (pdf_upload "doc.pdf" [page 1 0]) (Some "x"))
         = 500).
Proof.
  apply (parser_errors_in_handlers (pdf_upload "doc.pdf" [page 1 0]) None
           (Some "x") [page 1 0] ValueError).
  - vm_compute. reflexivity.
  - reflexivity.
  - simpl. set_solver.
  - vm_compute. reflexivity.
Defined.

(** ** More on rotation *)

Lemma turned_turned a b p : turned b (turned a p) = turned (a + b) p.
Proof. unfold turned. simpl. f_equal. lia. Qed.

(** X11: without page range, or with the empty one, rotate turns every
    page of the upload. *)
Theorem rotate_pdf_all_pages file angle_field pages src :
  Form 90 angle_field ∈ [90; 180; 270] →
  is_pdf_name (filename file) = true →
  read_pdf file = Ok src →
  truthy pages = false →
  rotate_pdf file angle_field pages
  = Ok (pdf_response (PdfBytes (turned (Form 90 angle_field) <$> src))
          "rotated.pdf").
Proof.
  intros Hangle Hname Hread Hall.
  destruct (rotate_pdf_pages file angle_field pages src
              (list_to_set (py_range 0 (Z.of_nat (length src)))))
    as (out & -> & Hlen & Hout); [done..| |].
  { unfold rotate_targets. by rewrite Hall. }
  do 3 f_equal. apply list_eq. intros i. rewrite list_lookup_fmap.
  destruct (src !! i) as [p|] eqn:Hp; simpl.
  - rewrite (Hout i p Hp). unfold rotated_page.
    rewrite bool_decide_eq_true_2; [done|].
    apply elem_of_list_to_set, elem_of_py_range.
    apply lookup_lt_Some in Hp. lia.
  - apply lookup_ge_None. apply lookup_ge_None in Hp. lia.
Qed.

Lemma rotate_pdf_all_pages_witness :
  rotate_pdf (pdf_upload "doc.pdf" [page 1 0; page 2 270]) (Some 180) None
  = Ok (pdf_response
          (PdfBytes (turned (Form 90 (Some 180)) <$> [page 1 0; page 2 270]))
          "rotated.pdf").
Proof.
  apply (rotate_pdf_all_pages (pdf_upload "doc.pdf" [page 1 0; page 2 270])
           (Some 180) None).
  - simpl. set_solver.
  - vm_compute. reflexivity.
  - reflexivity.
  - reflexivity.
Defined.

(** X12: rotate answers the error of the angle exactly when the angle is
    not 90, 180 or 270; the angle is checked before the name of the upload,
    so the answer is the same for an upload that is no PDF. *)
Theorem rotate_pdf_angle_error file angle_field pages src :
  read_pdf file = Ok src →
  rotate_pdf file angle_field pages = Raise angle_error
  ↔ Form 90 angle_field ∉ [90; 180; 270].
Proof.
  intros Hread. unfold rotate_pdf.
  destruct (bool_decide_reflect (Form 90 angle_field ∈ [90; 180; 270]))
    as [Hangle|Hangle]; simpl; [|done].
  split; [|done]. intros Hrot. exfalso.
  destruct (is_pdf_name (filename file)); simpl in Hrot; [|discriminate].
  rewrite Hread in Hrot. simpl in Hrot.
  destruct (rotate_targets pages (Z.of_nat (length src)))
    as [targets|e] eqn:Htargets; simpl in Hrot.
  - destruct (rotate_loop (Form 90 angle_field) targets src
                (valid_angle_multiple _ Hangle) 0 [])
      as (out & Hrun & _).
    rewrite Hrun in Hrot. discriminate.
  - apply rotate_targets_raises in Htargets as [-> | ->]; discriminate.
Qed.

Lemma rotate_pdf_angle_error_witness :
  rotate_pdf (pdf_upload "notes.txt" [page 1 0]) (Some 45) None
  = Raise angle_error.
Proof.
  apply (proj2 (rotate_pdf_angle_error (pdf_upload "notes.txt" [page 1 0])
                  (Some 45) None [page 1 0] eq_refl)).
  simpl. set_solver.
Defined.

(** X13: two rotations with the same page range, the answer of the first
    uploaded again unchanged, add up: a targeted page ends with the sum of
    the two angles added to its rotation, any other page as it was. *)
Theorem rotate_pdf_twice file a b pages src targets name :
  a ∈ [90; 180; 270] → b ∈ [90; 180; 270] →
  is_pdf_name (filename file) = true →
  is_pdf_name name = true →
  read_pdf file = Ok src →
  rotate_targets pages (Z.of_nat (length src)) = Ok targets →
  ∃ out1 out2,
    rotate_pdf file (Some a) pages
      = Ok (pdf_response (PdfBytes out1) "rotated.pdf")
    ∧ rotate_pdf (pdf_upload name out1) (Some b) pages
      = Ok (pdf_response (PdfBytes out2) "rotated.pdf")
    ∧ ∀ (i : nat) p, src !! i = Some p →
        out2 !! i = Some (rotated_page (a + b) targets (Z.of_nat i) p).
Proof.
  intros Ha Hb Hfile Hname Hread Htargets.
  destruct (rotate_pdf_pages file (Some a) pages src targets)
    as (out1 & Hrot1 & Hlen1 & Hout1); [done..|].
  destruct (rotate_pdf_pages (pdf_upload name out1) (Some b) pages out1 targets)
    as (out2 & Hrot2 & Hlen2 & Hout2); [done..|by rewrite Hlen1|].
  exists out1, out2. split; [done|]. split; [done|].
  intros i p Hp. rewrite (Hout2 i _ (Hout1 i p Hp)). simpl.
  unfold rotated_page. case_bool_decide; [|done]. by rewrite turned_turned.
Qed.

Lemma rotate_pdf_twice_witness :
  ∃ out1 out2,
    rotate_pdf (pdf_upload "doc.pdf" [page 1 0; page 2 0]) (Some 90) (Some "2")
      = Ok (pdf_response (PdfBytes out1) "rotated.pdf")
    ∧ rotate_pdf (pdf_upload "next.pdf" out1) (Some 270) (Some "2")
      = Ok (pdf_response (PdfBytes out2) "rotated.pdf")
    ∧ ∀ (i : nat) p, [page 1 0; page 2 0] !! i = Some p →
        out2 !! i
        = Some (rotated_page (90 + 270) {[1]} (Z.of_nat i) p).
Proof.
  apply (rotate_pdf_twice (pdf_upload "doc.pdf" [page 1 0; page 2 0])
           90 270 (Some "2") [page 1 0; page 2 0] {[1]} "next.pdf").
  - set_solver.
  - set_solver.
  - vm_compute. reflexivity.
  - vm_compute. reflexivity.
  - reflexivity.
  - vm_compute. reflexivity.
Defined.

(** ** More on images to PDF *)

Lemma decode_loop_exact images :
  ∀ σ,
  forallb decodes images = true →
  ∃ σ', Conv.for_in images decode_image σ = (Ok (), σ')
    ∧ pil_images σ'
      = (pil_images σ ++ decoded_images (next_handle σ) images)%list.
Proof.
  induction images as [|img images IH]; intros σ Hdec; simpl.
  - eexists. split; [reflexivity|]. by rewrite app_nil_r.
  - simpl in Hdec. apply andb_true_iff in Hdec as [Himg Hdec].
    unfold Conv.bind.
    assert (Hstep : ∃ σ1, decode_image img σ = (Ok (), σ1)
              ∧ pil_images σ1
                = (pil_images σ
                   ++ [{| handle := S (next_handle σ);
                          encodable := upload_encodable img |}])%list
              ∧ next_handle σ1 = S (S (next_handle σ))).
    { unfold decodes in Himg. unfold decode_image, Conv.bind, upload_encodable.
      destruct (read_image img) as [| |enc]; try discriminate. simpl.
      eexists. split; [reflexivity|]. by simpl. }
    destruct Hstep as (σ1 & -> & Hpil & Hnext).
    destruct (IH σ1 Hdec) as (σ' & -> & Hpil').
    exists σ'. split; [done|].
    by rewrite Hpil', Hpil, Hnext, <- app_assoc.
Qed.

Lemma decoded_images_length next images :
  length (decoded_images next images) = length images.
Proof.
  revert next. induction images as [|img images IH]; intros next; simpl;
    [done|by rewrite IH].
Qed.

Lemma decoded_images_encodable next images :
  forallb encodable (decoded_images next images)
  = forallb upload_encodable images.
Proof.
  revert next. induction images as [|img images IH]; intros next; simpl;
    [done|by rewrite IH].
Qed.

Lemma decoded_images_lookup images :
  ∀ next k img,
  images !! k = Some img →
  decoded_images next images !! k
  = Some {| handle := (next + 2 * k + 1)%nat;
            encodable := upload_encodable img |}.
Proof.
  induction images as [|img' images IH]; intros next k img Hk; [done|].
  destruct k as [|k]; simpl in *.
  - simplify_eq. do 2 f_equal. lia.
  - rewrite (IH _ k img Hk). do 2 f_equal. lia.
Qed.

(** X14: when every upload decodes and the encoder accepts every image,
    the answer is a document of one page per upload, the page at position
    [k] being the image converted from the upload at position [k]; and every
    image the handler kept is closed. *)
Theorem images_to_pdf_one_page_per_image images page_size σ :
  images ≠ [] →
  pil_images σ = [] →
  forallb decodes images = true →
  forallb upload_encodable images = true →
  ∃ pages σ',
    images_to_pdf images page_size σ
    = (Ok (_bytesio_response (ImagesPdfBytes pages) "images.pdf"
             "application/pdf"), σ')
    ∧ length pages = length images
    ∧ (∀ k img, images !! k = Some img →
         pages !! k = Some (next_handle σ + 2 * k + 1)%nat)
    ∧ released σ'.
Proof.
  intros Hne Hfresh Hdec Henc.
  destruct (decode_loop_exact images σ Hdec) as (σ1 & Hrun & Hpil).
  rewrite Hfresh in Hpil. simpl in Hpil.
  destruct (decoded_images (next_handle σ) images) as [|first rest] eqn:Hims.
  { apply (f_equal length) in Hims. rewrite decoded_images_length in Hims.
    by destruct images. }
  destruct (images_to_pdf_success images page_size σ first rest σ1)
    as (σ' & Hok & Hrel); [done..| |].
  { by rewrite <- Hims, decoded_images_encodable. }
  exists (handle <$> first :: rest), σ'. split; [done|].
  rewrite <- Hims. split; [by rewrite length_fmap, decoded_images_length|].
  split; [|done]. intros k img Hk.
  by rewrite list_lookup_fmap, (decoded_images_lookup _ _ _ _ Hk).
Qed.

Lemma images_to_pdf_one_page_per_image_witness :
  ∃ pages σ',
    images_to_pdf [image_upload "a.png" (Decodes true);
                   image_upload "b.jpg" (Decodes true)] None conv_init
    = (Ok (_bytesio_response (ImagesPdfBytes pages) "images.pdf"
             "application/pdf"), σ')
    ∧ length pages
      = length [image_upload "a.png" (Decodes true);
                image_upload "b.jpg" (Decodes true)]
    ∧ (∀ k img,
         [image_upload "a.png" (Decodes true);
          image_upload "b.jpg" (Decodes true)] !! k = Some img →
         pages !! k = Some (next_handle conv_init + 2 * k + 1)%nat)
    ∧ released σ'.
Proof.
  apply (images_to_pdf_one_page_per_image
           [image_upload "a.png" (Decodes true);
            image_upload "b.jpg" (Decodes true)] None conv_init).
  - discriminate.
  - reflexivity.
  - reflexivity.
  - reflexivity.
Defined.

(** X15: the status of images to PDF: 400 without uploads or when an
    upload is no image, 500 when every upload decodes and the encoder refuses
    one, 200 otherwise. *)
Theorem images_to_pdf_status images page_size σ :
  pil_images σ = [] →
  status_of (fst (images_to_pdf images page_size σ)) = images_status images.
Proof.
  intros Hfresh. unfold images_status.
  destruct images as [|img images]; [done|].
  destruct (forallb decodes (img :: images)) eqn:Hdec.
  - destruct (decode_loop_exact (img :: images) σ Hdec) as (σ1 & Hrun & Hpil).
    rewrite Hfresh, app_nil_l in Hpil.
    destruct (decoded_images (next_handle σ) (img :: images))
      as [|first rest] eqn:Hims; [discriminate|].
    pose proof (decoded_images_encodable (next_handle σ) (img :: images))
      as Henc. rewrite Hims in Henc.
    destruct (forallb upload_encodable (img :: images)) eqn:Hup.
    + destruct (images_to_pdf_success (img :: images) page_size σ first rest σ1)
        as (σ' & -> & _); [done..|congruence|done].
    + rewrite (images_to_pdf_save_failure (img :: images) page_size σ
                 first rest σ1); [done..|congruence].
  - destruct (images_to_pdf_decode_failure (img :: images) page_size σ Hdec)
      as (σ' & -> & _). done.
Qed.

Lemma images_to_pdf_status_witness :
  status_of
    (fst (images_to_pdf [image_upload "a.png" (Decodes true);
                         image_upload "b.txt" ConvertFails] None conv_init))
  = images_status [image_upload "a.png" (Decodes true);
                   image_upload "b.txt" ConvertFails].
Proof.
  apply (images_to_pdf_status
           [image_upload "a.png" (Decodes true);
            image_upload "b.txt" ConvertFails] None conv_init).
  reflexivity.
Defined.

(** ** More on extraction *)

Lemma page_images_clean page_idx items :
  ∀ st,
  Forall (λ item, ∃ o ext, item = Ok o ∧ image_ext o = Ok ext) items →
  img_count st = Z.of_nat (length (zf st)) →
  let st' := snd (page_images page_idx items st) in
  img_count st' = Z.of_nat (length (zf st'))
  ∧ length (zf st') = (length (zf st) + length items)%nat
  ∧ ∀ (k : nat) e, zf st' !! k = Some e → (length (zf st) ≤ k)%nat →
      ∃ ext, e.1 = entry_name page_idx (Z.of_nat k + 1) ext.
Proof.
  induction items as [|item items IH]; intros st Hclean Hcount; simpl.
  - split; [done|]. split; [lia|]. intros k e Hk Hge.
    apply lookup_lt_Some in Hk. lia.
  - apply Forall_cons in Hclean as [(o & ext & -> & Hext) Hclean].
    rewrite Hext.
    match goal with
    | |- context [page_images page_idx items ?s] => set (st1 := s)
    end.
    assert (Hlen1 : length (zf st1) = S (length (zf st))).
    { unfold st1. cbn [zf]. rewrite length_app. cbn [length]. lia. }
    assert (Hcount1 : img_count st1 = Z.of_nat (length (zf st1))).
    { rewrite Hlen1. unfold st1. cbn [img_count]. lia. }
    destruct (IH st1 Hclean Hcount1) as (Hcount' & Hlen' & Hnames').
    split; [done|]. split; [lia|]. intros k e Hk Hge.
    destruct (decide (k = length (zf st))) as [->|Hne].
    + pose proof (page_images_keeps_entries page_idx items st1) as [l Hl].
      rewrite Hl in Hk. unfold st1 in Hk. cbn [zf img_count] in Hk.
      rewrite <- app_assoc in Hk. rewrite lookup_app_r in Hk by lia.
      rewrite Nat.sub_diag in Hk. cbn in Hk. injection Hk as <-.
      cbn [fst]. exists ext. f_equal. lia.
    + apply (Hnames' k e Hk). lia.
Qed.

Lemma extract_pages_clean pages :
  ∀ start st,
  Forall clean pages →
  img_count st = Z.of_nat (length (zf st)) →
  let st' := extract_pages (enumerate start pages) st in
  img_count st' = Z.of_nat (length (zf st'))
  ∧ length (zf st') = (length (zf st) + image_total pages)%nat
  ∧ ∀ (k : nat) e, zf st' !! k = Some e → (length (zf st) ≤ k)%nat →
      ∃ page_idx ext,
        start ≤ page_idx < start + Z.of_nat (length pages)
        ∧ e.1 = entry_name page_idx (Z.of_nat k + 1) ext.
Proof.
  induction pages as [|p pages IH]; intros start st Hclean Hcount; simpl.
  - split; [done|]. split; [unfold image_total; simpl; lia|].
    intros k e Hk Hge. apply lookup_lt_Some in Hk. lia.
  - apply Forall_cons in Hclean as [Hp Hclean].
    destruct (page_images_clean start (images p) st Hp Hcount)
      as (Hcount1 & Hlen1 & Hnames1).
    set (st1 := snd (page_images start (images p) st)) in *.
    destruct (IH (start + 1) st1 Hclean Hcount1) as (Hcount' & Hlen' & Hnames').
    split; [done|]. split.
    { change (image_total (p :: pages))
        with (length (images p) + image_total pages)%nat. lia. }
    intros k e Hk Hge.
    destruct (decide (length (zf st1) ≤ k)%nat) as [Hlate|Hearly].
    + destruct (Hnames' k e Hk Hlate) as (page_idx & ext & Hidx & Hname).
      exists page_idx, ext. split; [lia|done].
    + pose proof (extract_pages_keeps_entries
                    (enumerate (start + 1) pages) st1) as [l Hl].
      rewrite Hl, lookup_app_l in Hk by lia.
      destruct (Hnames1 k e Hk Hge) as [ext Hname].
      exists start, ext. split; [lia|done].
Qed.

(** X16: in a document where no image fails, the archive holds one
    entry per image, and the entry at position [k], counted from 0 across
    all the pages, is named after its page and the number [k + 1]: the
    counter runs through the document and does not start again with a
    page. *)
Theorem extracted_running_counter src :
  Forall clean src →
  length (extracted src) = image_total src
  ∧ ∀ (k : nat) e, extracted src !! k = Some e →
      ∃ page_idx ext,
        1 ≤ page_idx ≤ Z.of_nat (length src)
        ∧ e.1 = entry_name page_idx (Z.of_nat k + 1) ext.
Proof.
  intros Hclean.
  destruct (extract_pages_clean src 1 extract_init Hclean eq_refl)
    as (_ & Hlen & Hnames).
  split; [exact Hlen|]. intros k e Hk.
  destruct (Hnames k e Hk) as (page_idx & ext & Hidx & Hname);
    [simpl; lia|].
  exists page_idx, ext. split; [lia|done].
Qed.

Lemma extracted_running_counter_witness :
  length (extracted
            [page_with_images 1 [Ok (image_file (Some (Some "PNG")) [])];
             page_with_images 2 [Ok (image_file None [])]])
  = image_total
      [page_with_images 1 [Ok (image_file (Some (Some "PNG")) [])];
       page_with_images 2 [Ok (image_file None [])]]
  ∧ ∀ (k : nat) e,
      extracted
        [page_with_images 1 [Ok (image_file (Some (Some "PNG")) [])];
         page_with_images 2 [Ok (image_file None [])]] !! k = Some e →
      ∃ page_idx ext,
        1 ≤ page_idx
        ≤ Z.of_nat
            (length
               [page_with_images 1 [Ok (image_file (Some (Some "PNG")) [])];
                page_with_images 2 [Ok (image_file None [])]])
        ∧ e.1 = entry_name page_idx (Z.of_nat k + 1) ext.
Proof.
  apply (extracted_running_counter
           [page_with_images 1 [Ok (image_file (Some (Some "PNG")) [])];
            page_with_images 2 [Ok (image_file None [])]]).
  repeat constructor; simpl; eauto.
Defined.

(** ** Names of the entries *)

Lemma append_nil_l (s : string) : "" +:+ s = s.
Proof. reflexivity. Qed.

Lemma append_cons (c : ascii) (s t : string) :
  String c s +:+ t = String c (s +:+ t).
Proof. reflexivity. Qed.

Lemma pretty_N_char_digit x : Str.is_digit (pretty_N_char x) = true.
Proof. unfold pretty_N_char. by repeat case_match. Qed.

Lemma pretty_N_go_digits x :
  ∀ s, all_digits s = true → all_digits (pretty_N_go x s) = true.
Proof.
  induction (N.lt_wf_0 x) as [x _ IH]. intros s Hs.
  assert (x = 0 ∨ 0 < x)%N as [->|Hpos] by lia.
  - by rewrite pretty_N_go_0.
  - rewrite pretty_N_go_step by done. apply IH.
    + by apply N.div_lt.
    + simpl. by rewrite pretty_N_char_digit.
Qed.

Lemma pretty_Z_digits (z : Z) : 0 ≤ z → all_digits (pretty z) = true.
Proof.
  destruct z as [|p|p]; intros Hz; [done| |lia].
  unfold pretty, pretty_Z, pretty, pretty_positive, pretty, pretty_N.
  case_decide; [done|]. by apply pretty_N_go_digits.
Qed.

Lemma digits_prefix_unique d1 :
  ∀ d2 r1 r2,
  all_digits d1 = true → all_digits d2 = true →
  starts_without_digit r1 → starts_without_digit r2 →
  d1 +:+ r1 = d2 +:+ r2 → d1 = d2 ∧ r1 = r2.
Proof.
  induction d1 as [|c1 d1 IH]; intros [|c2 d2] r1 r2 Hd1 Hd2 Hr1 Hr2 Heq;
    rewrite ?append_nil_l, ?append_cons in Heq; simpl in *.
  - done.
  - subst r1. simpl in Hr1. apply andb_true_iff in Hd2 as [Hc2 _]. congruence.
  - subst r2. simpl in Hr2. apply andb_true_iff in Hd1 as [Hc1 _]. congruence.
  - injection Heq as -> Heq.
    apply andb_true_iff in Hd1 as [_ Hd1].
    apply andb_true_iff in Hd2 as [_ Hd2].
    destruct (IH d2 r1 r2) as [-> ->]; done.
Qed.

(** The name of an entry determines its page, its number and its
    extension. *)
Lemma entry_name_inj i1 c1 ext1 i2 c2 ext2 :
  0 ≤ i1 → 0 ≤ c1 → 0 ≤ i2 → 0 ≤ c2 →
  entry_name i1 c1 ext1 = entry_name i2 c2 ext2 →
  i1 = i2 ∧ c1 = c2 ∧ ext1 = ext2.
Proof.
  intros Hi1 Hc1 Hi2 Hc2. unfold entry_name. intros Heq.
  rewrite ?append_cons, ?append_nil_l in Heq. injection Heq as Heq.
  apply digits_prefix_unique in Heq as [Hi Heq];
    [|by apply pretty_Z_digits..|done|done].
  rewrite ?append_cons, ?append_nil_l in Heq. injection Heq as Heq.
  apply digits_prefix_unique in Heq as [Hc Heq];
    [|by apply pretty_Z_digits..|done|done].
  rewrite ?append_cons, ?append_nil_l in Heq. injection Heq as Heq.
  split; [by apply (inj pretty)|]. split; [by apply (inj pretty)|done].
Qed.

Lemma page_images_counted page_idx items :
  0 ≤ page_idx →
  ∀ st, 0 ≤ img_count st → counted st →
  counted (snd (page_images page_idx items st))
  ∧ 0 ≤ img_count (snd (page_images page_idx items st)).
Proof.
  intros Hidx. induction items as [|[o|e] items IH]; intros st Hpos Hst;
    simpl; [done| |done].
  destruct (image_ext o) as [ext|e] eqn:Hext; simpl.
  - apply IH; simpl; [lia|].
    destruct Hst as (cs & Hnamed & Hsorted & Hbound).
    exists (cs ++ [img_count st + 1])%list. split; [|split].
    + apply Forall2_app; [done|]. constructor; [|constructor].
      exists page_idx, ext. by split.
    + apply StronglySorted_app. split; [|split; [done|]].
      * intros c1 c2 Hc1 Hc2. apply list_elem_of_singleton in Hc2 as ->.
        rewrite Forall_forall in Hbound. specialize (Hbound c1 Hc1). lia.
      * repeat constructor.
    + apply Forall_app. split.
      * eapply Forall_impl; [exact Hbound|]. simpl. lia.
      * constructor; [simpl; lia|constructor].
  - split; [|lia].
    destruct Hst as (cs & Hnamed & Hsorted & Hbound).
    exists cs. split; [done|]. split; [done|].
    eapply Forall_impl; [exact Hbound|]. simpl. lia.
Qed.

Lemma extract_pages_counted pages :
  ∀ start st,
  0 ≤ start → 0 ≤ img_count st → counted st →
  counted (extract_pages (enumerate start pages) st).
Proof.
  induction pages as [|p pages IH]; intros start st Hstart Hpos Hst; simpl;
    [done|].
  destruct (page_images_counted start (images p) Hstart st Hpos Hst)
    as [Hst1 Hpos1].
  apply IH; [lia|done..].
Qed.

Lemma named_by_NoDup entries :
  ∀ cs,
  named_by entries cs → StronglySorted Z.lt cs → Forall (λ c, 0 < c) cs →
  NoDup (fst <$> entries).
Proof.
  induction entries as [|e entries IH]; intros cs Hnamed Hsorted Hpos;
    [constructor|].
  apply Forall2_cons_inv_l in Hnamed as (c & cs' & He & Hnamed & ->).
  apply StronglySorted_inv in Hsorted as [Hsorted Hlt].
  apply Forall_cons in Hpos as [Hc Hpos].
  rewrite fmap_cons. constructor; [|by apply (IH cs')].
  intros Hin. apply list_elem_of_fmap in Hin as (e' & Hname & Hin).
  destruct (proj1 (list_elem_of_lookup _ _) Hin) as [k Hk].
  destruct (Forall2_lookup_l _ _ _ _ _ Hnamed Hk) as (c' & Hc' & He').
  destruct He as (i & ext & Hi & Hname1).
  destruct He' as (i' & ext' & Hi' & Hname2).
  assert (Hc'in : c' ∈ cs') by (apply list_elem_of_lookup; eauto).
  rewrite Forall_forall in Hlt, Hpos.
  specialize (Hlt c' Hc'in). specialize (Hpos c' Hc'in).
  rewrite Hname1, Hname2 in Hname.
  apply entry_name_inj in Hname as (_ & Hcc & _); lia.
Qed.

(** X17: no two entries of the archive have the same name, whatever
    the pages hold and wherever their enumeration fails. *)
Theorem extracted_names_distinct (src : list PageObject) :
  NoDup (fst <$> extracted src).
Proof.
  assert (Hcounted : counted (extract_pages (enumerate 1 src) extract_init)).
  { apply extract_pages_counted; [lia|simpl; lia|].
    exists []. repeat split; constructor. }
  destruct Hcounted as (cs & Hnamed & Hsorted & Hbound).
  apply (named_by_NoDup _ cs); [done..|].
  eapply Forall_impl; [exact Hbound|]. simpl. lia.
Qed.

(** ** Names of PDF uploads *)

Lemma string_length_append (a b : string) :
  String.length (a +:+ b) = (String.length a + String.length b)%nat.
Proof.
  induction a as [|c a IH]; [done|].
  rewrite append_cons. simpl. by rewrite IH.
Qed.

Lemma substring_all (s : string) :
  String.substring 0 (String.length s) s = s.
Proof. induction s as [|c s IH]; simpl; [done|by rewrite IH]. Qed.

Lemma substring_suffix m :
  ∀ s, (m ≤ String.length s)%nat →
  ∃ pre, s = pre +:+ String.substring m (String.length s - m) s.
Proof.
  induction m as [|m IH]; intros s Hm.
  - exists "". by rewrite append_nil_l, Nat.sub_0_r, substring_all.
  - destruct s as [|c s]; simpl in Hm; [lia|].
    destruct (IH s) as [pre Hpre]; [lia|].
    exists (String c pre). rewrite append_cons. simpl. by rewrite <- Hpre.
Qed.

Lemma substring_append pre suf :
  String.substring (String.length pre) (String.length suf) (pre +:+ suf) = suf.
Proof.
  induction pre as [|c pre IH].
  - rewrite append_nil_l. apply substring_all.
  - rewrite append_cons. simpl. apply IH.
Qed.

Lemma endswith_iff s suffix :
  Str.endswith s suffix = true ↔ ∃ pre, s = pre +:+ suffix.
Proof.
  unfold Str.endswith. split.
  - destruct (Nat.leb_spec (String.length suffix) (String.length s))
      as [Hle|Hlt]; [|discriminate].
    intros Heq%String.eqb_eq.
    destruct (substring_suffix (String.length s - String.length suffix) s)
      as [pre Hpre]; [lia|].
    exists pre. rewrite Hpre at 1. do 2 f_equal. rewrite <- Heq at 3.
    f_equal. lia.
  - intros [pre ->]. rewrite string_length_append.
    destruct (Nat.leb_spec (String.length suffix)
                (String.length pre + String.length suffix)) as [_|?]; [|lia].
    replace (String.length pre + String.length suffix - String.length suffix)%nat
      with (String.length pre) by lia.
    rewrite substring_append. apply String.eqb_refl.
Qed.

Lemma lower_append a b : Str.lower (a +:+ b) = Str.lower a +:+ Str.lower b.
Proof.
  induction a as [|c a IH]; [done|].
  rewrite append_cons. simpl. by rewrite IH, append_cons.
Qed.

Lemma lower_append_inv a :
  ∀ s b, Str.lower s = a +:+ b →
  ∃ s1 s2, s = s1 +:+ s2 ∧ Str.lower s1 = a ∧ Str.lower s2 = b.
Proof.
  induction a as [|c a IH]; intros s b Hs.
  - exists "", s. by rewrite append_nil_l in *.
  - rewrite append_cons in Hs. destruct s as [|c0 s]; [discriminate|].
    simpl in Hs. injection Hs as Hc Hs.
    destruct (IH s b Hs) as (s1 & s2 & -> & H1 & H2).
    exists (String c0 s1), s2. rewrite append_cons. simpl.
    by rewrite Hc, H1.
Qed.

(** X18: the check of the name of an upload accepts exactly the names
    that end with [.pdf], in whatever mix of upper and lower case. *)
Theorem is_pdf_name_iff name :
  is_pdf_name name = true ↔
    ∃ stem ext, name = stem +:+ ext ∧ Str.lower ext = ".pdf".
Proof.
  unfold is_pdf_name. rewrite endswith_iff. split.
  - intros [pre Hpre]. apply lower_append_inv in Hpre as (s1 & s2 & -> & _ & H2).
    by exists s1, s2.
  - intros (stem & ext & -> & Hext). exists (Str.lower stem).
    by rewrite lower_append, Hext.
Qed.

Lemma is_pdf_name_iff_witness : is_pdf_name "Report.PdF" = true.
Proof.
  apply (proj2 (is_pdf_name_iff "Report.PdF")).
  exists "Report", ".PdF". split; reflexivity.
Defined.

(** ** The diagnostic endpoint *)

Lemma probe_database_other module response key :
  key ≠ "database" → key ≠ "database_url" → key ≠ "database_name" →
  key ≠ "connection_status" → key ≠ "collections" →
  probe_database module response !! key = response !! key.
Proof.
  intros. unfold probe_database.
  destruct module as [|e|[db|]]; [| | |];
    repeat case_match; by rewrite ?lookup_insert_ne.
Qed.

Lemma truthy_iff (value : option string) :
  truthy value = true ↔ ∃ v, value = Some v ∧ v ≠ "".
Proof.
  destruct value as [[|c v]|]; simpl.
  - split; [discriminate|]. by intros (v & [= <-] & ?).
  - split; [|done]. intros _. by exists (String c v).
  - split; [discriminate|]. by intros (v & ? & _).
Qed.

Lemma test_database_setting module getenv key variable :
  (key = "database_url" ∧ variable = "DATABASE_URL")
  ∨ (key = "database_name" ∧ variable = "DATABASE_NAME") →
  test_database module getenv !! key
  = Some (JStr (if truthy (getenv variable) then "✅ Set" else "❌ Not Set")).
Proof.
  unfold test_database. intros [[-> ->]|[-> ->]].
  - rewrite lookup_insert_ne by done. by rewrite lookup_insert_eq.
  - by rewrite lookup_insert_eq.
Qed.

(** X19: whatever the database module does, the answer says
    ["✅ Set"] for [database_url] exactly when the variable [DATABASE_URL]
    of the environment has a non-empty value and ["❌ Not Set"] exactly
    when it is absent or empty, and the same for [database_name] and
    [DATABASE_NAME]: what the handler read from the database object, its
    name included, is never in the answer under these keys. *)
Theorem test_database_reports_environment module getenv :
  (test_database module getenv !! "database_url" = Some (JStr "✅ Set")
   ↔ ∃ v, getenv "DATABASE_URL" = Some v ∧ v ≠ "")
  ∧ (test_database module getenv !! "database_url" = Some (JStr "❌ Not Set")
     ↔ getenv "DATABASE_URL" = None ∨ getenv "DATABASE_URL" = Some "")
  ∧ (test_database module getenv !! "database_name" = Some (JStr "✅ Set")
     ↔ ∃ v, getenv "DATABASE_NAME" = Some v ∧ v ≠ "")
  ∧ (test_database module getenv !! "database_name"
     = Some (JStr "❌ Not Set")
     ↔ getenv "DATABASE_NAME" = None ∨ getenv "DATABASE_NAME" = Some "").
Proof.
  assert (Hflag : ∀ value,
    ((Some (JStr (if truthy value then "✅ Set" else "❌ Not Set"))
      = Some (JStr "✅ Set")) ↔ ∃ v, value = Some v ∧ v ≠ "")
    ∧ ((Some (JStr (if truthy value then "✅ Set" else "❌ Not Set"))
        = Some (JStr "❌ Not Set")) ↔ value = None ∨ value = Some "")).
  { intros value. rewrite <- truthy_iff.
    destruct value as [[|c v]|]; simpl; split; split;
      (done || discriminate || (intros [?|?]; discriminate) || auto). }
  rewrite (test_database_setting module getenv "database_url" "DATABASE_URL")
    by auto.
  rewrite (test_database_setting module getenv "database_name" "DATABASE_NAME")
    by auto.
  destruct (Hflag (getenv "DATABASE_URL")) as [H1 H2].
  destruct (Hflag (getenv "DATABASE_NAME")) as [H3 H4].
  done.
Qed.

Lemma test_database_reports_environment_witness :
  test_database
    (Imported (Some {| db_name := Some "main";
                       list_collection_names := Ok ["users"] |}))
    (λ variable,
       if String.eqb variable "DATABASE_URL" then Some "mongodb://db"
       else None) !! "database_url"
  = Some (JStr "✅ Set")
  ∧ test_database
      (Imported (Some {| db_name := Some "main";
                         list_collection_names := Ok ["users"] |}))
      (λ variable,
         if String.eqb variable "DATABASE_URL" then Some "mongodb://db"
         else None) !! "database_name"
    = Some (JStr "❌ Not Set").
Proof.
  split.
  - apply (proj2 (proj1 (test_database_reports_environment _ _))).
    exists "mongodb://db". split; [reflexivity|discriminate].
  - apply (proj2 (proj2 (proj2 (proj2
             (test_database_reports_environment _ _))))).
    left. reflexivity.
Defined.



(** ** Answers of the PDF handlers *)

Lemma images_to_pdf_answer images page_size σ r σ' :
  images_to_pdf images page_size σ = (Ok r, σ') →
  ∃ handles,
    r = StreamingResponse (ImagesPdfBytes handles) "application/pdf"
          [("Content-Disposition", "attachment; filename=images.pdf")].
Proof.
  intros Hrun. destruct images as [|img images]; [discriminate|].
  pose proof (decode_loop (img :: images) σ) as Hloop.
  destruct (forallb decodes (img :: images)) eqn:Hdec.
  - destruct Hloop as (σ1 & Hdecode & _).
    destruct (pil_images σ1) as [|first rest] eqn:Hpil.
    + unfold images_to_pdf, Conv.bind at 1, Conv.try_except in Hrun.
      rewrite Hdecode in Hrun.
      unfold Conv.bind at 1, Conv.get_pil_images in Hrun.
      rewrite Hpil in Hrun. discriminate.
    + destruct (forallb encodable (first :: rest)) eqn:Henc.
      * destruct (images_to_pdf_success (img :: images) page_size σ
                    first rest σ1) as (σ2 & Hok & _); [done..|].
        rewrite Hok in Hrun. injection Hrun as <- _.
        by exists (handle <$> first :: rest).
      * rewrite (images_to_pdf_save_failure (img :: images) page_size σ
                   first rest σ1) in Hrun by done.
        discriminate.
  - destruct (images_to_pdf_decode_failure (img :: images) page_size σ Hdec)
      as (σ2 & Hfail & _).
    rewrite Hfail in Hrun. discriminate.
Qed.

(** X21: whenever a handler answers with a file, the answer is a stream
    with the media type of the file and the single header
    [Content-Disposition: attachment; filename=...] carrying the fixed name
    of the handler: [merged.pdf], [split.pdf], [rotated.pdf],
    [compressed.pdf] and [images.pdf] as [application/pdf], [images.zip] as
    [application/zip]. *)
Theorem pdf_handlers_answer_attachments :
  (∀ files r, merge_pdfs files = Ok r →
     ∃ out,
       r = StreamingResponse (PdfBytes out) "application/pdf"
             [("Content-Disposition", "attachment; filename=merged.pdf")])
  ∧ (∀ file pages r, split_pdf file pages = Ok r →
       ∃ out,
         r = StreamingResponse (PdfBytes out) "application/pdf"
               [("Content-Disposition", "attachment; filename=split.pdf")])
  ∧ (∀ file angle_field pages r, rotate_pdf file angle_field pages = Ok r →
       ∃ out,
         r = StreamingResponse (PdfBytes out) "application/pdf"
               [("Content-Disposition", "attachment; filename=rotated.pdf")])
  ∧ (∀ file r, compress_pdf file = Ok r →
       ∃ out,
         r = StreamingResponse (PdfBytes out) "application/pdf"
               [("Content-Disposition",
                 "attachment; filename=compressed.pdf")])
  ∧ (∀ images page_size σ r σ',
       images_to_pdf images page_size σ = (Ok r, σ') →
       ∃ handles,
         r = StreamingResponse (ImagesPdfBytes handles) "application/pdf"
               [("Content-Disposition", "attachment; filename=images.pdf")])
  ∧ (∀ entry_nbytes file r, extract_images entry_nbytes file = Ok r →
       ∃ entries,
         r = StreamingResponse (ZipBytes entries) "application/zip"
               [("Content-Disposition", "attachment; filename=images.zip")]).
Proof.
  split; [|split; [|split; [|split; [|split]]]].
  - intros files r Hmerge.
    apply merge_pdfs_ok_iff in Hmerge as (_ & _ & docs & _ & ->).
    by exists (concat docs).
  - intros file pages r. unfold split_pdf.
    destruct (negb (is_pdf_name (filename file))); [discriminate|].
    destruct (read_pdf file) as [src|]; simpl; [|discriminate].
    destruct (_parse_pages pages _) as [indices|]; simpl; [|discriminate].
    destruct (for_each _ _ _) as [writer|]; simpl; [|discriminate].
    intros ?; simplify_eq. by exists writer.
  - intros file angle_field pages r. unfold rotate_pdf.
    destruct (bool_decide_reflect (Form 90 angle_field ∈ [90; 180; 270]))
      as [Hangle|]; simpl; [|discriminate].
    destruct (negb (is_pdf_name (filename file))); [discriminate|].
    destruct (read_pdf file) as [src|]; simpl; [|discriminate].
    destruct (rotate_targets pages _) as [targets|]; simpl; [|discriminate].
    destruct (for_each _ _ _) as [writer|]; simpl; [|discriminate].
    intros ?; simplify_eq. by exists writer.
  - intros file r. unfold compress_pdf.
    destruct (negb (is_pdf_name (filename file))); [discriminate|].
    destruct (read_pdf file) as [src|]; simpl; [|discriminate].
    intros ?; simplify_eq. by eexists.
  - apply images_to_pdf_answer.
  - intros entry_nbytes file r. unfold extract_images.
    destruct (negb (is_pdf_name (filename file))); [discriminate|].
    destruct (read_pdf file) as [src|]; simpl; [|discriminate].
    rewrite zip_nbytes_positive. intros ?; simplify_eq. by eexists.
Qed.

Lemma pdf_handlers_answer_attachments_witness :
  ∃ out,
    pdf_response (PdfBytes [page 1 0]) "compressed.pdf"
    = StreamingResponse (PdfBytes out) "application/pdf"
        [("Content-Disposition", "attachment; filename=compressed.pdf")].
Proof.
  apply (proj1 (proj2 (proj2 (proj2 pdf_handlers_answer_attachments)))
           (pdf_upload "doc.pdf" [page 1 0])).
  vm_compute. reflexivity.
Defined.

(** ** The page-range parser and the size of the document *)

Lemma selects_mono total_pages total_pages' part i :
  total_pages ≤ total_pages' →
  selects total_pages part i → selects total_pages' part i.
Proof.
  intros Hle [Hne Hsel]. split; [done|].
  destruct (Str.contains "-" (Str.strip part)).
  - destruct Hsel as (a & b & ia & ib & Hab & Ha & Hb & Hi).
    exists a, b, ia, ib. repeat split; (done || lia).
  - destruct Hsel as (n & Hn & Hrange & ->). exists n.
    repeat split; (done || lia).
Qed.

(** X22: a selection grows with the document: when the parser returns
    a list for an expression against a document, it returns a list for the
    same expression against a longer document, and every index of the
    first list is in the second. *)
Theorem parse_pages_monotone pages total_pages total_pages' ordered :
  total_pages ≤ total_pages' →
  _parse_pages pages total_pages = Ok ordered →
  ∃ ordered',
    _parse_pages pages total_pages' = Ok ordered'
    ∧ ∀ i, i ∈ ordered → i ∈ ordered'.
Proof.
  intros Hle Hparse.
  assert (Hfull : ordered = py_range 0 total_pages →
    ∃ ordered', Ok (py_range 0 total_pages') = Ok ordered'
      ∧ ∀ i, i ∈ ordered → i ∈ ordered').
  { intros ->. eexists. split; [done|]. intros i.
    rewrite !elem_of_py_range. lia. }
  destruct pages as [[|c pages]|];
    [apply Hfull; simpl in Hparse; congruence| |
     apply Hfull; simpl in Hparse; congruence].
  pose proof Hparse as Hselected.
  apply parse_pages_selected in Hselected
    as (selected & Hrun & -> & Hne); [|done].
  destruct (forallb well_formed_part (Str.split "," (String c pages)))
    eqn:Hwf.
  - destruct (for_each_well_formed total_pages' _ ∅ Hwf) as [selected' Hrun'].
    assert (Hsub : ∀ i, i ∈ selected → i ∈ selected').
    { intros i.
      rewrite (for_each_selects _ _ _ _ Hrun i),
        (for_each_selects _ _ _ _ Hrun' i).
      intros [?|(part & Hin & Hsel)]; [by left|]. right. exists part.
      split; [done|]. by apply (selects_mono total_pages). }
    rewrite (parse_pages_of_selected _ _ selected') by done.
    rewrite decide_False.
    + eexists. split; [done|]. intros i. rewrite !elem_of_sorted. apply Hsub.
    + intros ->. apply Hne. apply set_eq. intros i. split.
      * intros Hi. by apply Hsub in Hi.
      * intros Hi. by apply elem_of_empty in Hi.
  - rewrite (for_each_malformed total_pages _ ∅ Hwf) in Hrun. discriminate.
Qed.

Lemma parse_pages_monotone_witness :
  ∃ ordered',
    _parse_pages (Some "2-9") 6 = Ok ordered'
    ∧ ∀ i, i ∈ [1; 2; 3] → i ∈ ordered'.
Proof.
  apply (parse_pages_monotone (Some "2-9") 4 6 [1; 2; 3]).
  - lia.
  - vm_compute. reflexivity.
Defined.
